(** * prophetverse effects: a shallow embedding and its verification

    The development follows the source files

    - [prophetverse/effects/base.py]         (module [base])
    - [prophetverse/effects/log.py]          (module [log])
    - [prophetverse/effects/effect_apply.py] (module [effect_apply])
    - [prophetverse/effects/effects.py]      (module [effects_pkg])
    - [prophetverse/effects.py]              (module [effects_py], the
      older [AbstractEffect] hierarchy)

    Floating-point tensors are idealised as tensors of real numbers:
    there is no rounding, and an infinity or a [nan] has no counterpart.
    Python exceptions are values of [exn]; a computation that may raise
    returns a [result]. *)

From Stdlib Require Import String Ascii List Bool Arith Lia Reals Lra.
From Stdlib Require Import DecimalString.
From Stdlib Require DecimalNat DecimalFacts.
Import ListNotations.

Local Open Scope string_scope.
Local Open Scope list_scope.

(* ================================================================== *)
(** * Python runtime: exceptions, results, dictionaries               *)
(* ================================================================== *)

Module Py.

(** The exception classes the code raises, with their messages.
    [ColumnsAlreadySet s] is
    [ValueError("Columns {} are already set".format(s))], kept with the
    set [s] it prints. *)
Inductive exn : Type :=
| ValueError (msg : string)
| ColumnsAlreadySet (cols : list string)
| NotImplementedError (msg : string)
| KeyError (key : string)
| IndexError (msg : string)
| AttributeError (name : string)
| TypeError (msg : string).

Inductive result (A : Type) : Type :=
| Ok (a : A)
| Raise (e : exn).
Arguments Ok {A} a.
Arguments Raise {A} e.

Definition bind {A B} (r : result A) (k : A -> result B) : result B :=
  match r with
  | Ok a => k a
  | Raise e => Raise e
  end.

(** A [dict] with string keys keeps insertion order; [d[k] = v] replaces
    the value of an existing key in place and appends a new key. *)
Definition dict (V : Type) : Type := list (string * V).

Fixpoint dict_set {V} (d : dict V) (k : string) (v : V) : dict V :=
  match d with
  | [] => [(k, v)]
  | (k', v') :: d' =>
      if String.eqb k' k then (k', v) :: d' else (k', v') :: dict_set d' k v
  end.

(** [d.pop(k)]: the value and the dictionary without the key. *)
Fixpoint dict_pop {V} (d : dict V) (k : string) : result (V * dict V) :=
  match d with
  | [] => Raise (KeyError k)
  | (k', v') :: d' =>
      if String.eqb k' k then Ok (v', d')
      else bind (dict_pop d' k) (fun '(v, r) => Ok (v, (k', v') :: r))
  end.

(** [enumerate(l)]. *)
Fixpoint enumerate_from {A} (i : nat) (l : list A) : list (nat * A) :=
  match l with
  | [] => []
  | x :: l' => (i, x) :: enumerate_from (S i) l'
  end.
Definition enumerate {A} (l : list A) : list (nat * A) := enumerate_from 0 l.

(** ["{}".format(i)] for a non-negative integer. *)
Definition str_of_nat (i : nat) : string :=
  NilZero.string_of_uint (Nat.to_uint i).

Definition mem (x : string) (l : list string) : bool :=
  existsb (String.eqb x) l.

(** Elements of [l] in first-occurrence order, without repetition. *)
Fixpoint unique (l : list string) : list string :=
  match l with
  | [] => []
  | x :: l' => x :: filter (fun y => negb (String.eqb x y)) (unique l')
  end.

Fixpoint insert_sorted (x : string) (l : list string) : list string :=
  match l with
  | [] => [x]
  | y :: l' => if String.leb x y then x :: l else y :: insert_sorted x l'
  end.

Definition sorted (l : list string) : list string :=
  fold_right insert_sorted [] l.

(** [repr(l)] for a list of strings that hold no quote and no character
    that [repr] escapes: ['a', 'b']. *)
Definition repr_list (l : list string) : string :=
  ("[" ++ String.concat ", " (map (fun s => "'" ++ s ++ "'") l) ++ "]")%string.

End Py.
Import Py.

Declare Scope py_scope.
Delimit Scope py_scope with py.
Notation "x <- c ;; k" := (Py.bind c (fun x => k))
  (at level 61, c at next level, right associativity) : py_scope.
Notation "' p <- c ;; k" := (Py.bind c (fun p => k))
  (at level 61, p pattern, c at next level, right associativity) : py_scope.

(* ================================================================== *)
(** * [re.match] on literal patterns                                  *)
(* ================================================================== *)

(** The effects are parametric in the regular-expression matcher
    ([re.match pattern s is not None], which anchors the pattern at the
    start of [s] and accepts any continuation).  [Re.re_match] is that
    function on the patterns made of ordinary characters and the
    alternation bar: [a1|a2|...|an] matches [s] when some [ai] is a prefix
    of [s].  It is the matcher used for the concrete runs below. *)
Module Re.

Fixpoint split_bar (s : string) : list string :=
  match s with
  | EmptyString => [EmptyString]
  | String c s' =>
      if Ascii.eqb c "|"%char then EmptyString :: split_bar s'
      else match split_bar s' with
           | [] => [String c EmptyString]
           | a :: r => String c a :: r
           end
  end.

Definition re_match (pattern s : string) : bool :=
  existsb (fun alt => String.prefix alt s) (split_bar pattern).

(** The characters with a special meaning in a pattern, and the names and
    patterns free of them: on such patterns, with or without bars,
    [re_match] is [re.match]. *)
Definition metacharacters : list ascii :=
  ["."; "^"; "$"; "*"; "+"; "?"; "{"; "}"; "["; "]"; "\"; "|"; "("; ")"]%char.

Definition ordinary (c : ascii) : bool :=
  negb (existsb (Ascii.eqb c) metacharacters).

Fixpoint literal (s : string) : bool :=
  match s with
  | EmptyString => true
  | String c s' => ordinary c && literal s'
  end.

Fixpoint alternation_of_literals (s : string) : bool :=
  match s with
  | EmptyString => true
  | String c s' =>
      (ordinary c || Ascii.eqb c "|"%char) && alternation_of_literals s'
  end.

End Re.

(* ================================================================== *)
(** * [jax.numpy]: n-dimensional arrays of reals                      *)
(* ================================================================== *)

Module jnp.

(** An array is its shape and its elements in row-major order. *)
Record ndarray : Type := mk_ndarray { shape : list nat; flat : list R }.

Definition size_of (s : list nat) : nat := fold_right Nat.mul 1 s.
Definition ndim (a : ndarray) : nat := length (shape a).
Definition well_formed (a : ndarray) : Prop :=
  length (flat a) = size_of (shape a).

Definition scalar (x : R) : ndarray := mk_ndarray [] [x].
Definition array1 (v : list R) : ndarray := mk_ndarray [length v] v.

(** [a.shape[i]], an [IndexError] past the rank. *)
Definition shape_at (a : ndarray) (i : nat) : result nat :=
  match nth_error (shape a) i with
  | Some d => Ok d
  | None => Raise (IndexError "tuple index out of range")
  end.

(** ** Broadcasting *)

(** Shapes are aligned on their last axis; two extents agree when they
    are equal or one of them is 1. *)
Fixpoint broadcast_rev (s1 s2 : list nat) : option (list nat) :=
  match s1, s2 with
  | [], s => Some s
  | s, [] => Some s
  | a :: s1', b :: s2' =>
      match broadcast_rev s1' s2' with
      | None => None
      | Some s =>
          if Nat.eqb a b then Some (a :: s)
          else if Nat.eqb a 1 then Some (b :: s)
          else if Nat.eqb b 1 then Some (a :: s)
          else None
      end
  end.

Definition broadcast_shapes (s1 s2 : list nat) : option (list nat) :=
  option_map (@rev nat) (broadcast_rev (rev s1) (rev s2)).

(** Row-major multi-index of the [k]-th element, and back. *)
Fixpoint unravel (s : list nat) (k : nat) : list nat :=
  match s with
  | [] => []
  | _ :: s' => (k / size_of s') :: unravel s' (k mod size_of s')
  end.

Fixpoint ravel (s ix : list nat) : nat :=
  match s, ix with
  | _ :: s', i :: ix' => i * size_of s' + ravel s' ix'
  | _, _ => 0
  end.

Fixpoint clamp (s ix : list nat) : list nat :=
  match s, ix with
  | d :: s', i :: ix' => (if Nat.eqb d 1 then 0 else i) :: clamp s' ix'
  | _, _ => []
  end.

(** Position, in an operand of shape [s], of the element that goes to
    the multi-index [ix] of the broadcast result. *)
Definition operand_index (s ix : list nat) : nat :=
  ravel s (clamp s (skipn (length ix - length s) ix)).

Definition get (a : ndarray) (s_out : list nat) (k : nat) : R :=
  nth (operand_index (shape a) (unravel s_out k)) (flat a) 0%R.

Definition broadcast2 (f : R -> R -> R) (a b : ndarray) : result ndarray :=
  match broadcast_shapes (shape a) (shape b) with
  | None => Raise (TypeError "incompatible shapes for broadcasting")
  | Some s =>
      Ok (mk_ndarray s
            (map (fun k => f (get a s k) (get b s k)) (seq 0 (size_of s))))
  end.

(** Element by element on two lists of the same length. *)
Definition zip_with (f : R -> R -> R) (u v : list R) : list R :=
  map (fun p => f (fst p) (snd p)) (combine u v).

Definition multiply : ndarray -> ndarray -> result ndarray := broadcast2 Rmult.
Definition add : ndarray -> ndarray -> result ndarray := broadcast2 Rplus.
Definition divide : ndarray -> ndarray -> result ndarray := broadcast2 Rdiv.

Definition map_elems (f : R -> R) (a : ndarray) : ndarray :=
  mk_ndarray (shape a) (map f (flat a)).

(** [jnp.log]; on the positive reals it is [ln]. *)
Definition log : ndarray -> ndarray := map_elems ln.

(** [jnp.clip(a, a_min, None)]. *)
Definition clip_min (a : ndarray) (a_min : R) : ndarray :=
  map_elems (fun x => Rmax x a_min) a.

(** [-a]. *)
Definition negative : ndarray -> ndarray := map_elems Ropp.

(** [a ** b].  The embedding is faithful on positive bases, where the
    power is [exp (b * ln a)].  On a zero or a negative base the code
    gives an infinity, a [nan] or a signed power, none of which is
    [Rpower]'s value there; no statement below uses [power] off the
    positive bases. *)
Definition power : ndarray -> ndarray -> result ndarray := broadcast2 Rpower.

(** ** Matrix product with a column *)

Fixpoint chunks (fuel n : nat) (l : list R) : list (list R) :=
  match fuel with
  | 0 => []
  | S fuel' => firstn n l :: chunks fuel' n (skipn n l)
  end.

Fixpoint dot (u v : list R) : R :=
  match u, v with
  | x :: u', y :: v' => (x * y + dot u' v')%R
  | _, _ => 0%R
  end.

(** [a.reshape((-1, 1))]. *)
Definition reshape_column (a : ndarray) : ndarray :=
  mk_ndarray [length (flat a); 1] (flat a).

(** [data @ col] for [col] of shape [(m, 1)]: the last axis of [data]
    is contracted with the column. *)
Definition matmul_column (data col : ndarray) : result ndarray :=
  match rev (shape data) with
  | [] => Raise (ValueError
                   "matmul input operand 0 must have ndim at least 1, but it has ndim 0")
  | n :: batch_rev =>
      if Nat.eqb n (length (flat col)) then
        let rows := size_of batch_rev in
        Ok (mk_ndarray
              (match batch_rev with [] => [1] | _ => rev batch_rev ++ [1] end)
              (map (fun r => dot r (flat col)) (chunks rows n (flat data))))
      else Raise (TypeError "matmul: contracting dimensions differ")
  end.

(** ** Two-dimensional arrays as lists of rows

    The placement matrix of the heterogeneous-prior effect is built and
    used row by row; it is kept as the list of its rows. *)

Definition matrix : Type := list (list R).

(** [jnp.eye(n)]. *)
Definition eye (n : nat) : matrix :=
  map (fun i => map (fun j => if Nat.eqb i j then 1%R else 0%R) (seq 0 n)) (seq 0 n).

(** [m[idx]] for an array [idx] of row numbers. *)
Definition take (m : matrix) (idx : list nat) : matrix :=
  map (fun i => nth i m []) idx.

(** [m.T]. *)
Definition transpose (m : matrix) : matrix :=
  map (fun j => map (fun row => nth j row 0%R) m) (seq 0 (length (hd [] m))).

Definition hstack (a b : matrix) : matrix :=
  map (fun p => fst p ++ snd p) (combine a b).

(** [jnp.concatenate(ms, axis=1)]. *)
Definition concatenate_axis1 (ms : list matrix) : result matrix :=
  match ms with
  | [] => Raise (ValueError "Need at least one array to concatenate.")
  | m :: ms' =>
      if forallb (fun m' => Nat.eqb (length m') (length m)) ms'
      then Ok (fold_left hstack ms' m)
      else Raise (TypeError "Cannot concatenate arrays with different shapes")
  end.

(** [jnp.concatenate(ms, axis=0)]. *)
Definition concatenate_axis0 (ms : list matrix) : result matrix :=
  match ms with
  | [] => Raise (ValueError "Need at least one array to concatenate.")
  | _ :: _ => Ok (concat ms)
  end.

(** [a @ b]. *)
Definition matmul (a b : matrix) : result matrix :=
  if forallb (fun row => Nat.eqb (length row) (length b)) a
  then Ok (map (fun row => map (fun col => dot row col) (transpose b)) a)
  else Raise (TypeError "matmul: contracting dimensions differ").

(** [v.reshape((-1, 1))] for the elements [v] of an array. *)
Definition column (v : list R) : matrix := map (fun x => [x]) v.

Definition of_rows (m : matrix) : ndarray :=
  mk_ndarray [length m; length (hd [] m)] (concat m).

(** [jnp.ones(k) * x]. *)
Definition ones_times (k : nat) (x : R) : ndarray :=
  mk_ndarray [k] (map (fun o => (o * x)%R) (repeat 1%R k)).

(** [a.shape[-1]], an [IndexError] on an array of rank zero. *)
Definition shape_last (a : ndarray) : result nat :=
  match rev (shape a) with
  | [] => Raise (IndexError "tuple index out of range")
  | d :: _ => Ok d
  end.

(** [jnp.expand_dims(a, axis=-1)] and [jnp.expand_dims(a, axis=0)]. *)
Definition expand_dims_last (a : ndarray) : ndarray :=
  mk_ndarray (shape a ++ [1]) (flat a).
Definition expand_dims_first (a : ndarray) : ndarray :=
  mk_ndarray (1 :: shape a) (flat a).

(** [jnp.array([x] * k)]. *)
Definition full_of (k : nat) (x : R) : ndarray := mk_ndarray [k] (repeat x k).

End jnp.
Import jnp.

(* ================================================================== *)
(** * [numpyro]: distributions and the trace of sample sites          *)
(* ================================================================== *)

Module numpyro.

(** A distribution object: its family and its (array) parameters. *)
Record Distribution : Type :=
  mk_dist { family : string; params : list ndarray }.

Definition batch_shape (d : Distribution) : list nat :=
  match params d with
  | [] => []
  | p :: _ => shape p
  end.

Definition Gamma (a b : R) : Distribution :=
  mk_dist "Gamma" [scalar a; scalar b].
Definition HalfNormal (s : R) : Distribution :=
  mk_dist "HalfNormal" [scalar s].

(** One model evaluation runs under a handler that supplies the value
    of each site ([draw]) and records the names of the declared sites
    in declaration order ([trace]). *)
Record handler : Type :=
  mk_handler { draw : string -> Distribution -> ndarray;
               trace : list string }.

Definition M (A : Type) : Type := handler -> result (A * handler).

Definition ret {A} (a : A) : M A := fun h => Ok (a, h).
Definition mbind {A B} (m : M A) (k : A -> M B) : M B :=
  fun h => match m h with
           | Ok (a, h') => k a h'
           | Raise e => Raise e
           end.
Definition lift {A} (r : result A) : M A :=
  fun h => match r with
           | Ok a => Ok (a, h)
           | Raise e => Raise e
           end.

(** [numpyro.sample(name, dist)]. *)
Definition sample (name : string) (d : Distribution) : M ndarray :=
  fun h => Ok (draw h name d, mk_handler (draw h) (trace h ++ [name])).

End numpyro.

Declare Scope numpyro_scope.
Delimit Scope numpyro_scope with numpyro.
Notation "x <~ c ;; k" := (numpyro.mbind c (fun x => k))
  (at level 61, c at next level, right associativity) : numpyro_scope.
Notation "' p <~ c ;; k" := (numpyro.mbind c (fun p => k))
  (at level 61, p pattern, c at next level, right associativity) : numpyro_scope.

(* ================================================================== *)
(** * [prophetverse/effects/base.py]                                  *)
(* ================================================================== *)

Module base.
Import numpyro.

Inductive Stage : Type := TRAIN | PREDICT.

(** A [pd.DataFrame] as far as the effects look at it: the column
    names, the number of levels of the row index, and the values, one
    block of rows per series (a flat table has one block). *)
Record DataFrame : Type :=
  mk_DataFrame { columns : list string;
                 index_nlevels : nat;
                 series : list (list (list R)) }.

Fixpoint position (c : string) (cols : list string) : option nat :=
  match cols with
  | [] => None
  | c' :: cols' =>
      if String.eqb c' c then Some 0 else option_map S (position c cols')
  end.

Fixpoint locate (names cols : list string) : option (list nat) :=
  match names with
  | [] => Some []
  | c :: names' =>
      match position c cols, locate names' cols with
      | Some p, Some ps => Some (p :: ps)
      | _, _ => None
      end
  end.

(** The labels of [names] that [cols] does not hold, each once, in the
    order of [names]. *)
Definition missing_labels (names cols : list string) : list string :=
  unique (filter (fun c => negb (mem c cols)) names).

(** The [KeyError] pandas raises when some label of a list is not a
    column: its argument is a message, which lists the labels not found
    when some label was found and prints the whole key when none was
    (written here as pandas prints a key that fits on one line). *)
Definition not_in_index (names cols : list string) : exn :=
  if forallb (fun c => negb (mem c cols)) names
  then KeyError ("None of [Index(" ++ repr_list names
                 ++ ", dtype='object')] are in the [columns]")%string
  else KeyError (repr_list (missing_labels names cols) ++ " not in index")%string.

Definition positions (names cols : list string) : result (list nat) :=
  match locate names cols with
  | Some ps => Ok ps
  | None => Raise (not_in_index names cols)
  end.

(** [X[names]]. *)
Definition getitem (X : DataFrame) (names : list string) : result DataFrame :=
  (ps <- positions names (columns X) ;;
   Ok (mk_DataFrame names (index_nlevels X)
         (map (map (fun row => map (fun p => nth p row 0%R) ps)) (series X))))%py.

(** Modelled from the spec: [prophetverse.utils.series_to_tensor_or_array],
    which is not among the sources.  The spec gives the default data
    tensor the shape (time steps, selected-column count) for a flat
    table and (series, time steps, selected-column count) for a
    hierarchical one. *)
Definition series_to_tensor_or_array (X : DataFrame) : ndarray :=
  let n_cols := length (columns X) in
  let n_time := length (hd [] (series X)) in
  if Nat.leb (index_nlevels X) 1
  then mk_ndarray [n_time; n_cols] (concat (hd [] (series X)))
  else mk_ndarray [length (series X); n_time; n_cols]
         (concat (map (@concat R) (series X))).

Definition not_initialized : exn :=
  ValueError "You must call initialize() before calling this method".

(** The attributes [BaseEffect.__init__] sets. *)
Record BaseEffect : Type :=
  mk_BaseEffect { id : string;
                  regex : option string;
                  _input_feature_column_names : list string;
                  _is_initialized : bool }.

Definition BaseEffect__init__ (id : string) (regex : option string) : BaseEffect :=
  mk_BaseEffect id regex [] false.

Definition set_input_feature_column_names (b : BaseEffect) (l : list string) :=
  mk_BaseEffect (id b) (regex b) l (_is_initialized b).
Definition set_is_initialized (b : BaseEffect) (v : bool) :=
  mk_BaseEffect (id b) (regex b) (_input_feature_column_names b) v.

(** [numpyro.sample(f"{self.id}__{name}", ...)]. *)
Definition sample (self : BaseEffect) (name : string) (d : Distribution)
  : M ndarray :=
  numpyro.sample (id self ++ "__" ++ name) d.

(** What a subclass provides: its [BaseEffect] attributes, the class
    tags and the three overridable hooks. *)
Class Effect (Self : Type) : Type :=
  { super : Self -> BaseEffect;
    set_super : Self -> BaseEffect -> Self;
    supports_multivariate : bool;
    skip_apply_if_no_match : bool;
    _initialize : Self -> DataFrame -> R -> result Self;
    _prepare_input_data : Self -> DataFrame -> Stage -> result (dict ndarray);
    _apply : Self -> ndarray -> dict ndarray -> M ndarray }.

(** The hooks as [BaseEffect] defines them. *)
Definition default_initialize {Self} (self : Self) (X : DataFrame) (scale : R)
  : result Self := Ok self.

Definition default_prepare_input_data {Self} (self : Self) (X : DataFrame)
    (stage : Stage) : result (dict ndarray) :=
  let array := series_to_tensor_or_array X in
  Ok [("data", array)].

Definition default_apply {Self} (self : Self) (trend : ndarray)
    (kwargs : dict ndarray) : M ndarray :=
  lift (Raise (NotImplementedError "Subclasses must implement _apply()")).

#[global] Instance BaseEffect_Effect : Effect BaseEffect :=
  {| super := fun b => b;
     set_super := fun _ b => b;
     supports_multivariate := false;
     skip_apply_if_no_match := true;
     _initialize := default_initialize;
     _prepare_input_data := default_prepare_input_data;
     _apply := default_apply |}.

Section Methods.
(** [re.match], as [pandas.Index.str.match] applies it to each name. *)
Variable re_match : string -> string -> bool.
Context {Self : Type} `{Effect Self}.

Definition input_feature_column_names (self : Self) : list string :=
  _input_feature_column_names (super self).

Definition should_skip_apply (self : Self) : bool :=
  match _input_feature_column_names (super self) with
  | [] => skip_apply_if_no_match
  | _ :: _ => false
  end.

Definition match_columns (self : Self) (columns : list string)
  : result (list string) :=
  match regex (super self) with
  | None => Raise (ValueError "To use this method, you must set the regex pattern")
  | Some pattern => Ok (filter (re_match pattern) columns)
  end.

Definition initialize (self : Self) (X : DataFrame) (scale : R) : result Self :=
  if negb supports_multivariate && Nat.ltb 1 (index_nlevels X) then
    Raise (ValueError ("The effect of if " ++ id (super self)
                         ++ " does not " ++ "support multivariate data"))
  else
    (cols <- match regex (super self) with
             | None => Ok []
             | Some _ => match_columns self (columns X)
             end ;;
     let self := set_super self
                   (set_input_feature_column_names (super self) cols) in
     self <- _initialize self X scale ;;
     Ok (set_super self (set_is_initialized (super self) true)))%py.

Definition prepare_input_data (self : Self) (X : DataFrame) (stage : Stage)
  : result (dict ndarray) :=
  if negb (_is_initialized (super self)) then
    Raise (ValueError "You must call initialize() before calling this method")
  else if should_skip_apply self then Ok []
  else
    (X <- getitem X (input_feature_column_names self) ;;
     _prepare_input_data self X stage)%py.

Definition apply (self : Self) (trend : ndarray) (kwargs : dict ndarray)
  : M ndarray :=
  (x <~ _apply self trend kwargs ;;
   ret x)%numpyro.

Definition __call__ (self : Self) (trend : ndarray) (kwargs : dict ndarray)
  : M ndarray := apply self trend kwargs.

End Methods.

(** ** [BaseAdditiveOrMultiplicativeEffect] *)

(** A subclass of it carries the [effect_mode] given to [__init__]. *)
Class AdditiveOrMultiplicative (Self : Type) `{Effect Self} : Type :=
  { effect_mode : Self -> string }.

Definition BaseAdditiveOrMultiplicativeEffect_apply {Self : Type}
    `{AdditiveOrMultiplicative Self}
    (self : Self) (trend : ndarray) (kwargs : dict ndarray) : M ndarray :=
  (x <~ apply self trend kwargs ;;
   if String.eqb (effect_mode self) "additive" then ret x
   else lift (multiply trend x))%numpyro.

End base.

(* ================================================================== *)
(** * [prophetverse/effects/log.py]                                   *)
(* ================================================================== *)

Module log.
Import numpyro base.

Record LogEffect : Type :=
  mk_LogEffect { log_super : BaseEffect;
                 log_effect_mode : string;
                 scale_prior : Distribution;
                 rate_prior : Distribution }.

(** [x or default] on an optional argument. *)
Definition or_default {A} (x : option A) (d : A) : A :=
  match x with Some v => v | None => d end.

Definition LogEffect__init__ (id : string) (regex : option string)
    (effect_mode : string) (scale_prior rate_prior : option Distribution)
  : LogEffect :=
  mk_LogEffect (BaseEffect__init__ id regex) effect_mode
    (or_default scale_prior (Gamma 1 1)) (or_default rate_prior (Gamma 1 1)).

Definition LogEffect_set_super (self : LogEffect) (b : BaseEffect) : LogEffect :=
  mk_LogEffect b (log_effect_mode self) (scale_prior self) (rate_prior self).

Definition LogEffect_apply (self : LogEffect) (trend : ndarray)
    (kwargs : dict ndarray) : M ndarray :=
  ('(data, _) <~ lift (dict_pop kwargs "data") ;;
   scale <~ sample (log_super self) "log_scale" (scale_prior self) ;;
   rate <~ sample (log_super self) "log_rate" (rate_prior self) ;;
   rate_data <~ lift (multiply rate data) ;;
   shifted <~ lift (add rate_data (scalar 1)) ;;
   effect <~ lift (multiply scale (jnp.log (clip_min shifted 1e-8%R))) ;;
   ret effect)%numpyro.

#[global] Instance LogEffect_Effect : Effect LogEffect :=
  {| super := log_super;
     set_super := LogEffect_set_super;
     supports_multivariate := false;
     skip_apply_if_no_match := true;
     _initialize := default_initialize;
     _prepare_input_data := default_prepare_input_data;
     _apply := LogEffect_apply |}.

#[global] Instance LogEffect_AdditiveOrMultiplicative
  : AdditiveOrMultiplicative LogEffect :=
  {| effect_mode := log_effect_mode |}.

End log.

(* ================================================================== *)
(** * [prophetverse/utils/algebric_operations.py] (not in the sources) *)
(* ================================================================== *)

Module algebric_operations.

(** Modelled from the spec: [matrix_multiplication], imported by
    [effect_apply.py] from a module that is not among the sources.  The
    spec (Linear family) has the coefficient vector reshaped to a column
    vector and matrix-multiplied against the data tensor, batched over
    an optional leading series dimension; the function of the same name
    in [effects.py] has this very body. *)
Definition matrix_multiplication (data coefficients : ndarray) : result ndarray :=
  matmul_column data (reshape_column coefficients).

End algebric_operations.

(* ================================================================== *)
(** * [prophetverse/effects/effect_apply.py]                          *)
(* ================================================================== *)

Module effect_apply.
Import algebric_operations.

Definition dimension_mismatch : exn :=
  ValueError
    "Dimensions of data and coefficients do not match for matrix multiplication".

Definition additive_effect (data coefficients : ndarray) : result ndarray :=
  (d1 <- shape_at data 1 ;;
   c0 <- shape_at coefficients 0 ;;
   if negb (Nat.eqb d1 c0) then Raise dimension_mismatch
   else matrix_multiplication data coefficients)%py.

Definition multiplicative_effect (trend data coefficients : ndarray)
  : result ndarray :=
  (d1 <- shape_at data 1 ;;
   c0 <- shape_at coefficients 0 ;;
   if negb (Nat.eqb d1 c0) then Raise dimension_mismatch
   else (p <- matrix_multiplication data coefficients ;; multiply trend p))%py.

End effect_apply.

(* ================================================================== *)
(** * [prophetverse/effects.py]: the [AbstractEffect] hierarchy        *)
(* ================================================================== *)

Module effects_py.
Import numpyro.

Record AbstractEffect : Type :=
  mk_AbstractEffect { id : string; regex : option string }.

Section Router.
Variable re_match : string -> string -> bool.

Definition match_columns (self : AbstractEffect) (columns : list string)
  : result (list string) :=
  match regex self with
  | None => Raise (ValueError "To use this method, you must set the regex pattern")
  | Some pattern => Ok (filter (re_match pattern) columns)
  end.
End Router.

Definition sample (self : AbstractEffect) (name : string) (d : Distribution)
  : M ndarray :=
  numpyro.sample (id self ++ "__" ++ name) d.

Definition matrix_multiplication (data coefficients : ndarray) : result ndarray :=
  matmul_column data (reshape_column coefficients).

Definition additive_effect (trend data coefficients : ndarray) : result ndarray :=
  matrix_multiplication data coefficients.

Definition multiplicative_effect (trend data coefficients : ndarray)
  : result ndarray :=
  (p <- matrix_multiplication data coefficients ;; multiply trend p)%py.

(** ** [LogEffect] *)

Record LogEffect : Type :=
  mk_LogEffect { log_super : AbstractEffect;
                 scale_prior : Distribution;
                 rate_prior : Distribution;
                 log_effect_mode : string }.

Definition LogEffect_compute_effect (self : LogEffect) (trend data : ndarray)
  : M ndarray :=
  (scale <~ sample (log_super self) "log_scale" (scale_prior self) ;;
   rate <~ sample (log_super self) "log_rate" (rate_prior self) ;;
   rate_data <~ lift (multiply rate data) ;;
   shifted <~ lift (add rate_data (scalar 1)) ;;
   effect <~ lift (multiply scale (jnp.log shifted)) ;;
   if String.eqb (log_effect_mode self) "additive" then ret effect
   else lift (multiply trend effect))%numpyro.

(** ** [HillEffect] *)

Record HillEffect : Type :=
  mk_HillEffect { hill_super : AbstractEffect;
                  half_max_prior : Distribution;
                  slope_prior : Distribution;
                  max_effect_prior : Distribution;
                  hill_effect_mode : string }.

Definition HillEffect_compute_effect (self : HillEffect) (trend data : ndarray)
  : M ndarray :=
  (half_max <~ sample (hill_super self) "half_max" (half_max_prior self) ;;
   slope <~ sample (hill_super self) "slope" (slope_prior self) ;;
   max_effect <~ sample (hill_super self) "max_effect" (max_effect_prior self) ;;
   ratio <~ lift (divide data half_max) ;;
   powered <~ lift (power ratio (negative slope)) ;;
   denominator <~ lift (add (scalar 1) powered) ;;
   saturation <~ lift (divide (scalar 1) denominator) ;;
   effect <~ lift (multiply max_effect saturation) ;;
   if String.eqb (hill_effect_mode self) "additive" then ret effect
   else lift (multiply trend effect))%numpyro.

(** ** [LinearHeterogenousPriorsEffect] *)

(** A prior as the constructor receives it, the tuple
    [(Distribution, *args)]: the distribution class and its arguments. *)
Record prior : Type := mk_prior { dist_class : string; dist_args : list R }.

Record LinearHeterogenousPriorsEffect : Type :=
  mk_LinearHeterogenousPriorsEffect
    { lin_super : AbstractEffect;
      exogenous_priors : dict prior;
      feature_names : list string;
      default_exogenous_prior : prior;
      lin_effect_mode : string;
      exogenous_permutation_matrix : option matrix;
      exogenous_dists : option (list (string * Distribution));
      (** the messages passed to [logging.warning] *)
      warnings : list string }.

(** [index.get_loc(c)] on an index of distinct names that holds [c]
    (the names looked up are taken from the index itself). *)
Fixpoint get_loc (index : list string) (c : string) : nat :=
  match index with
  | [] => 0
  | x :: index' => if String.eqb x c then 0 else S (get_loc index' c)
  end.

(** Python sets of names, as lists read up to order and repetition. *)
Definition intersection (s l : list string) : list string :=
  unique (filter (fun c => mem c s) l).
Definition union (s l : list string) : list string :=
  s ++ filter (fun c => negb (mem c s)) l.

(** [index.difference(s)]: the names of [index] not in [s], without
    repetition.  They come sorted, except that against an empty [s]
    pandas returns the names of [index] in their own order. *)
Definition index_difference (index s : list string) : list string :=
  match s with
  | [] => unique index
  | _ :: _ => sorted (unique (filter (fun c => negb (mem c s)) index))
  end.

Definition warning_no_match (regex : string) : string :=
  "No columns in the DataFrame match the regex pattern: " ++ regex.

Definition coefficient_name (i : nat) : string :=
  "exogenous_coefficients_" ++ str_of_nat i.

(** The three lists the loop of
    [set_distributions_and_permutation_matrix] grows. *)
Record loop_state : Type :=
  mk_loop_state { matrices : list matrix;
                  dists : list (string * Distribution);
                  logged : list string }.

Section Heterogeneous.
Variable re_match : string -> string -> bool.

(** The loop of [features_with_default_priors]. *)
Fixpoint claim_columns (features : list string) (items : dict prior)
    (already_set_columns : list string) : result (list string) :=
  match items with
  | [] => Ok already_set_columns
  | (regex, _) :: items' =>
      let columns := filter (re_match regex) features in
      match intersection already_set_columns columns with
      | [] => claim_columns features items' (union already_set_columns columns)
      | c :: cs => Raise (ColumnsAlreadySet (c :: cs))
      end
  end.

Definition features_with_default_priors
    (self : LinearHeterogenousPriorsEffect) : result string :=
  (already_set_columns <-
     claim_columns (feature_names self) (exogenous_priors self) [] ;;
   let remaining_columns :=
     index_difference (feature_names self) already_set_columns in
   let remaining_regex := String.concat "|" remaining_columns in
   Ok remaining_regex)%py.

(** [exogenous_priors], a copy of the given priors to which the
    default prior is added under the remaining regex when that is not
    the empty string. *)
Definition priors_with_default (self : LinearHeterogenousPriorsEffect)
  : result (dict prior) :=
  (remaining_regex <- features_with_default_priors self ;;
   if String.eqb remaining_regex "" then Ok (exogenous_priors self)
   else
     (key <- features_with_default_priors self ;;
      Ok (dict_set (exogenous_priors self) key
            (default_exogenous_prior self))))%py.

Definition group_columns (self : LinearHeterogenousPriorsEffect)
    (regex : string) : list string :=
  filter (re_match regex) (feature_names self).

Definition group_idx (self : LinearHeterogenousPriorsEffect)
    (regex : string) : list nat :=
  map (get_loc (feature_names self)) (group_columns self regex).

(** The distribution built for the columns a pattern matches. *)
Definition group_distribution (self : LinearHeterogenousPriorsEffect)
    (regex : string) (p : prior) : Distribution :=
  let idx := group_idx self regex in
  mk_dist (dist_class p)
    (map (fun arg => ones_times (length idx) arg) (dist_args p)).

(** [jnp.eye(len(self.feature_names))[idx].T]. *)
Definition group_block (self : LinearHeterogenousPriorsEffect)
    (regex : string) : matrix :=
  let idx := group_idx self regex in
  transpose (take (eye (length (feature_names self))) idx).

Definition loop_body (self : LinearHeterogenousPriorsEffect)
    (st : loop_state) (item : nat * (string * prior)) : loop_state :=
  let '(i, (regex, p)) := item in
  let idx := group_idx self regex in
  let distribution := group_distribution self regex p in
  let name := coefficient_name i in
  if Nat.eqb (length idx) 0 then
    mk_loop_state (matrices st) (dists st)
      (logged st ++ [warning_no_match regex])
  else
    mk_loop_state
      (matrices st ++ [group_block self regex])
      (dists st ++ [(name, distribution)])
      (logged st).

(** The loop over the enumerated priors and the two assignments that
    end [set_distributions_and_permutation_matrix]. *)
Definition assemble (self : LinearHeterogenousPriorsEffect)
    (items : list (nat * (string * prior)))
  : result LinearHeterogenousPriorsEffect :=
  let st := fold_left (loop_body self) items (mk_loop_state [] [] []) in
  (permutation_matrix <- concatenate_axis1 (matrices st) ;;
   Ok (mk_LinearHeterogenousPriorsEffect
         (lin_super self) (exogenous_priors self) (feature_names self)
         (default_exogenous_prior self) (lin_effect_mode self)
         (Some permutation_matrix) (Some (dists st))
         (warnings self ++ logged st)))%py.

Definition set_distributions_and_permutation_matrix
    (self : LinearHeterogenousPriorsEffect)
  : result LinearHeterogenousPriorsEffect :=
  match feature_names self with
  | [] => Ok self
  | _ :: _ =>
      (exogenous_priors <- priors_with_default self ;;
       assemble self (enumerate exogenous_priors))%py
  end.

Definition LinearHeterogenousPriorsEffect__init__
    (exogenous_priors : dict prior) (feature_names : list string)
    (default_exogenous_prior : prior) (effect_mode : string)
    (id : string) (regex : option string)
  : result LinearHeterogenousPriorsEffect :=
  set_distributions_and_permutation_matrix
    (mk_LinearHeterogenousPriorsEffect (mk_AbstractEffect id regex)
       exogenous_priors feature_names default_exogenous_prior effect_mode
       None None []).
End Heterogeneous.

(** The loop of [get_coefficients]: one draw per stored distribution,
    each reshaped to a column. *)
Fixpoint sample_parameters (self : LinearHeterogenousPriorsEffect)
    (ds : list (string * Distribution)) : M (list matrix) :=
  match ds with
  | [] => ret []
  | (regex, distribution) :: ds' =>
      (v <~ sample (lin_super self) ("exogenous_coefficients_" ++ regex)
              distribution ;;
       parameters <~ sample_parameters self ds' ;;
       ret (column (flat v) :: parameters))%numpyro
  end.

Definition get_coefficients (self : LinearHeterogenousPriorsEffect) : M matrix :=
  match exogenous_dists self, exogenous_permutation_matrix self with
  | Some ds, Some permutation_matrix =>
      (parameters <~ sample_parameters self ds ;;
       stacked <~ lift (concatenate_axis0 parameters) ;;
       lift (matmul permutation_matrix stacked))%numpyro
  | None, _ => lift (Raise (AttributeError "exogenous_dists"))
  | _, None => lift (Raise (AttributeError "exogenous_permutation_matrix"))
  end.

Definition LinearHeterogenousPriorsEffect_compute_effect
    (self : LinearHeterogenousPriorsEffect) (trend data : ndarray) : M ndarray :=
  (coefficients <~ get_coefficients self ;;
   if String.eqb (lin_effect_mode self) "multiplicative"
   then lift (multiplicative_effect trend data (of_rows coefficients))
   else lift (additive_effect trend data (of_rows coefficients)))%numpyro.

(** ** [LinearEffect] *)

Record LinearEffect : Type :=
  mk_LinearEffect { linear_super : AbstractEffect;
                    linear_prior : prior;
                    linear_effect_mode : string }.

Definition LinearEffect_compute_effect (self : LinearEffect)
    (trend data : ndarray) : M ndarray :=
  (n_features <~ lift (shape_last data) ;;
   let dist := dist_class (linear_prior self) in
   let dist_args := dist_args (linear_prior self) in
   coefficients <~ sample (linear_super self) "coefs"
                     (mk_dist dist (map (fun arg => full_of n_features arg) dist_args)) ;;
   let coefficients :=
     if Nat.eqb (ndim coefficients) 1 then expand_dims_last coefficients
     else coefficients in
   let coefficients :=
     if Nat.eqb (ndim data) 3 && Nat.eqb (ndim coefficients) 2
     then expand_dims_first coefficients
     else coefficients in
   if String.eqb (linear_effect_mode self) "multiplicative"
   then lift (multiplicative_effect trend data coefficients)
   else lift (additive_effect trend data coefficients))%numpyro.

End effects_py.

(* ================================================================== *)
(** * [prophetverse/effects/effects.py]                               *)
(* ================================================================== *)

Module effects_pkg.
Import numpyro.

(** [AbstractEffect] is imported from [prophetverse.effects.base]; it is
    the class of that name of [effects.py], whose [sample] the effects
    below call. *)
Record HillEffect : Type :=
  mk_HillEffect { hill_super : effects_py.AbstractEffect;
                  half_max_prior : Distribution;
                  slope_prior : Distribution;
                  max_effect_prior : Distribution;
                  hill_effect_mode : string }.

Definition HillEffect__init__ (id : string) (regex : option string)
    (half_max_prior slope_prior max_effect_prior : option Distribution)
    (effect_mode : string) : HillEffect :=
  mk_HillEffect (effects_py.mk_AbstractEffect id regex)
    (log.or_default half_max_prior (Gamma 1 1))
    (log.or_default slope_prior (HalfNormal 10))
    (log.or_default max_effect_prior (Gamma 1 1))
    effect_mode.

Section Hill.
(** [prophetverse.utils.algebric_operations._exponent_safe], which is
    not among the sources: the numerically safe exponentiation. *)
Variable _exponent_safe : ndarray -> ndarray -> result ndarray.

Definition HillEffect_compute_effect (self : HillEffect)
    (trend data : ndarray) : M ndarray :=
  (half_max <~ effects_py.sample (hill_super self) "half_max" (half_max_prior self) ;;
   slope <~ effects_py.sample (hill_super self) "slope" (slope_prior self) ;;
   max_effect <~ effects_py.sample (hill_super self) "max_effect" (max_effect_prior self) ;;
   ratio <~ lift (divide data half_max) ;;
   x <~ lift (_exponent_safe ratio (negative slope)) ;;
   denominator <~ lift (add (scalar 1) x) ;;
   effect <~ lift (divide max_effect denominator) ;;
   if String.eqb (hill_effect_mode self) "additive" then ret effect
   else lift (multiply trend effect))%numpyro.
End Hill.

End effects_pkg.

(* ================================================================== *)
(** * Vocabulary of the properties                                    *)
(* ================================================================== *)

Module props.

(** [l1] is [l2] with some elements left out, the others in place. *)
Inductive subsequence : list string -> list string -> Prop :=
| subsequence_nil : subsequence [] []
| subsequence_skip : forall x l1 l2, subsequence l1 l2 -> subsequence l1 (x :: l2)
| subsequence_keep : forall x l1 l2, subsequence l1 l2 -> subsequence (x :: l1) (x :: l2).




(** The raw Log value of one data element: the scaled logarithm of the
    clipped [rate * d + 1]. *)
Definition log_raw (scale rate : R) (d : R) : R :=
  (scale * ln (Rmax (rate * d + 1) 1e-8))%R.

(** The raw Hill value of one data element, for a given exponentiation. *)
Definition hill_raw (pow : R -> R -> R) (half_max slope max_effect : R) (d : R) : R :=
  (max_effect / (1 + pow (d / half_max) (- slope)))%R.

(** Number of entries of a row equal to 1. *)
Definition count_ones (row : list R) : nat := count_occ Req_dec_T row 1%R.

(** Number of the groups of a prior dictionary whose pattern matches [c]. *)
Definition groups_matching (re_match : string -> string -> bool)
    (priors : dict effects_py.prior) (c : string) : nat :=
  length (filter (fun item => re_match (fst item) c) priors).

(** The site under which [get_coefficients] declares the coefficients of
    the stored distribution called [name]. *)
Definition coefficient_site (self : effects_py.LinearHeterogenousPriorsEffect)
    (name : string) : string :=
  effects_py.id (effects_py.lin_super self) ++ "__"
    ++ "exogenous_coefficients_" ++ name.


(** The column positions of the groups that match some feature, in the
    order of the prior dictionary. *)
Definition group_positions (re_match : string -> string -> bool)
    (self : effects_py.LinearHeterogenousPriorsEffect)
    (priors : dict effects_py.prior) : list (list nat) :=
  filter (fun idx => negb (Nat.eqb (length idx) 0))
    (map (fun item => effects_py.group_idx re_match self (fst item)) priors).

(** The 0/1 matrix with [n] rows and one column per entry of [idx],
    whose column [j] has its 1 in row [idx[j]]. *)
Definition indicator_rows (n : nat) (idx : list nat) : matrix :=
  map (fun r => map (fun i => if Nat.eqb i r then 1%R else 0%R) idx) (seq 0 n).

(** A group of the enumerated priors that matches some feature. *)
Definition matches_some (re_match : string -> string -> bool)
    (self : effects_py.LinearHeterogenousPriorsEffect)
    (item : nat * (string * effects_py.prior)) : bool :=
  negb (Nat.eqb (length (effects_py.group_idx re_match self (fst (snd item)))) 0).

(** The effect that initialization leaves when some group matches a
    feature: the indicator matrix of the group positions, one stored
    distribution per matching group, one warning per other group. *)
Definition assembled (re_match : string -> string -> bool)
    (self : effects_py.LinearHeterogenousPriorsEffect)
    (items : list (nat * (string * effects_py.prior)))
    (positions : list (list nat))
  : effects_py.LinearHeterogenousPriorsEffect :=
  effects_py.mk_LinearHeterogenousPriorsEffect
    (effects_py.lin_super self) (effects_py.exogenous_priors self)
    (effects_py.feature_names self) (effects_py.default_exogenous_prior self)
    (effects_py.lin_effect_mode self)
    (Some (indicator_rows (length (effects_py.feature_names self))
             (concat positions)))
    (Some (map (fun it => (effects_py.coefficient_name (fst it),
                           effects_py.group_distribution re_match self
                             (fst (snd it)) (snd (snd it))))
             (filter (matches_some re_match self) items)))
    (effects_py.warnings self
       ++ map (fun it => effects_py.warning_no_match (fst (snd it)))
            (filter (fun it => negb (matches_some re_match self it)) items)).

(** Two entries of a dictionary, at different places, that both match [c]. *)
Definition matched_twice (re_match : string -> string -> bool)
    (items : dict effects_py.prior) (c : string) : Prop :=
  exists l1 x l2 y l3,
    items = l1 ++ x :: l2 ++ y :: l3 /\
    re_match (fst x) c = true /\ re_match (fst y) c = true.

(** A handler for the worked scenarios: it gives the site [site] the
    scalar [x] and every other site the scalar [y], or else [z]. *)
Definition scenario_handler (sites : list (string * R)) (z : R) : numpyro.handler :=
  numpyro.mk_handler
    (fun name _ =>
       match find (fun p => String.eqb (fst p) name) sites with
       | Some p => scalar (snd p)
       | None => scalar z
       end)
    [].

End props.

(* ================================================================== *)
(** * Verification                                                    *)
(* ================================================================== *)

(** ** Arrays: broadcasting on equal shapes and against a scalar *)

Section BroadcastFacts.

Lemma broadcast_rev_same (s : list nat) : broadcast_rev s s = Some s.
Proof.
  induction s as [|d s IH]; simpl; [reflexivity|].
  now rewrite IH, Nat.eqb_refl.
Qed.

Lemma broadcast_shapes_same (s : list nat) : broadcast_shapes s s = Some s.
Proof.
  unfold broadcast_shapes. rewrite broadcast_rev_same. simpl.
  now rewrite rev_involutive.
Qed.

Lemma broadcast_shapes_nil_l (s : list nat) : broadcast_shapes [] s = Some s.
Proof.
  unfold broadcast_shapes. simpl. now rewrite rev_involutive.
Qed.

Lemma broadcast_shapes_nil_r (s : list nat) : broadcast_shapes s [] = Some s.
Proof.
  unfold broadcast_shapes. change (rev []) with (@nil nat).
  destruct (rev s) eqn:E.
  - apply (f_equal (@rev nat)) in E. rewrite rev_involutive in E.
    now subst.
  - cbn [broadcast_rev option_map]. now rewrite <- E, rev_involutive.
Qed.

Lemma unravel_length (s : list nat) :
  forall k, length (unravel s k) = length s.
Proof.
  induction s as [|d s IH]; intros k; simpl; [reflexivity|].
  now rewrite IH.
Qed.

Lemma ravel_unravel (s : list nat) :
  forall k, k < size_of s -> ravel s (unravel s k) = k.
Proof.
  induction s as [|d s IH]; intros k Hk; simpl in *.
  - lia.
  - assert (Hs : size_of s <> 0) by (intros E; rewrite E in Hk; lia).
    rewrite IH by (apply Nat.mod_upper_bound; exact Hs).
    pose proof (Nat.div_mod_eq k (size_of s)). lia.
Qed.

Lemma clamp_unravel (s : list nat) :
  forall k, k < size_of s -> clamp s (unravel s k) = unravel s k.
Proof.
  induction s as [|d s IH]; intros k Hk; simpl in *; [reflexivity|].
  assert (Hs : size_of s <> 0) by (intros E; rewrite E in Hk; lia).
  rewrite IH by (apply Nat.mod_upper_bound; exact Hs).
  destruct (Nat.eqb_spec d 1) as [->|_]; [|reflexivity].
  rewrite Nat.div_small by lia. reflexivity.
Qed.

Lemma operand_index_same (s : list nat) (k : nat) :
  k < size_of s -> operand_index s (unravel s k) = k.
Proof.
  intros Hk. unfold operand_index.
  rewrite unravel_length, Nat.sub_diag. simpl.
  rewrite clamp_unravel by exact Hk. now apply ravel_unravel.
Qed.

Lemma operand_index_scalar (ix : list nat) : operand_index [] ix = 0.
Proof. reflexivity. Qed.

Lemma map_seq_nth (g : R -> R) (l : list R) :
  map (fun k => g (nth k l 0%R)) (seq 0 (length l)) = map g l.
Proof.
  induction l as [|x l IH]; simpl; [reflexivity|].
  f_equal. rewrite <- seq_shift, map_map. exact IH.
Qed.

Lemma map_seq_nth2 (f : R -> R -> R) (u v : list R) :
  length u = length v ->
  map (fun k => f (nth k u 0%R) (nth k v 0%R)) (seq 0 (length u))
  = zip_with f u v.
Proof.
  revert v. induction u as [|x u IH]; intros [|y v] Hl; simpl in *;
    try discriminate; [reflexivity|].
  unfold zip_with. simpl. f_equal.
  rewrite <- seq_shift, map_map. apply IH. lia.
Qed.

Lemma broadcast2_scalar_l (f : R -> R -> R) (x : R) (b : ndarray) :
  well_formed b -> broadcast2 f (scalar x) b = Ok (map_elems (f x) b).
Proof.
  intros Hb. unfold broadcast2, map_elems, scalar. cbn [shape flat].
  rewrite broadcast_shapes_nil_l. do 2 f_equal.
  rewrite <- Hb.
  rewrite <- (map_seq_nth (f x) (flat b)).
  apply map_ext_in. intros k Hk. apply in_seq in Hk.
  unfold get. cbn [shape flat].
  rewrite operand_index_scalar, operand_index_same by (rewrite <- Hb; lia).
  reflexivity.
Qed.

Lemma broadcast2_scalar_r (f : R -> R -> R) (a : ndarray) (y : R) :
  well_formed a ->
  broadcast2 f a (scalar y) = Ok (map_elems (fun x => f x y) a).
Proof.
  intros Ha. unfold broadcast2, map_elems, scalar. cbn [shape flat].
  rewrite broadcast_shapes_nil_r. do 2 f_equal.
  rewrite <- Ha.
  rewrite <- (map_seq_nth (fun x => f x y) (flat a)).
  apply map_ext_in. intros k Hk. apply in_seq in Hk.
  unfold get. cbn [shape flat].
  rewrite operand_index_scalar, operand_index_same by (rewrite <- Ha; lia).
  reflexivity.
Qed.

Lemma broadcast2_same_shape (f : R -> R -> R) (a b : ndarray) :
  shape a = shape b -> well_formed a -> well_formed b ->
  broadcast2 f a b
  = Ok (mk_ndarray (shape b) (zip_with f (flat a) (flat b))).
Proof.
  intros Hs Ha Hb. unfold broadcast2.
  rewrite Hs, broadcast_shapes_same. do 2 f_equal.
  assert (Hl : length (flat a) = length (flat b)).
  { unfold well_formed in *. congruence. }
  rewrite <- (map_seq_nth2 f _ _ Hl).
  replace (size_of (shape b)) with (length (flat a)) by congruence.
  apply map_ext_in. intros k Hk. apply in_seq in Hk.
  unfold get. rewrite Hs.
  rewrite operand_index_same by (unfold well_formed in Hb; lia).
  reflexivity.
Qed.

Lemma map_elems_well_formed (g : R -> R) (a : ndarray) :
  well_formed a -> well_formed (map_elems g a).
Proof.
  unfold well_formed, map_elems. simpl. now rewrite length_map.
Qed.

End BroadcastFacts.

(** ** Random-variable names *)

Section SampleNames.
Import numpyro.

Lemma sample_run (name : string) (d : Distribution) (h : handler) :
  numpyro.sample name d h
  = Ok (draw h name d, mk_handler (draw h) (trace h ++ [name])).
Proof. reflexivity. Qed.

(** C9: a random variable that an effect declares through [sample] is
    recorded under the effect's identity, followed by two underscores,
    followed by the given name, in both effect hierarchies; the effects
    [promo] and [seasonality], each declaring [coefs], leave the distinct
    sites [promo__coefs] and [seasonality__coefs] in the trace. *)
Theorem sample_name_is_prefixed_by_identity :
  (forall (self : base.BaseEffect) name d h,
      exists v h',
        base.sample self name d h = Ok (v, h') /\
        trace h' = trace h ++ [(base.id self ++ "__" ++ name)%string]) /\
  (forall (self : effects_py.AbstractEffect) name d h,
      exists v h',
        effects_py.sample self name d h = Ok (v, h') /\
        trace h' = trace h ++ [(effects_py.id self ++ "__" ++ name)%string]) /\
  (forall d1 d2 h,
      let promo := base.BaseEffect__init__ "promo" None in
      let seasonality := base.BaseEffect__init__ "seasonality" None in
      exists v1 v2 h',
        (x <~ base.sample promo "coefs" d1 ;;
         y <~ base.sample seasonality "coefs" d2 ;;
         ret (x, y))%numpyro h = Ok ((v1, v2), h') /\
        trace h' = trace h ++ ["promo__coefs"; "seasonality__coefs"]) /\
  "promo__coefs" <> "seasonality__coefs".
Proof.
  repeat split.
  - intros self name d h. unfold base.sample. rewrite sample_run.
    eexists _, _. split; reflexivity.
  - intros self name d h. unfold effects_py.sample. rewrite sample_run.
    eexists _, _. split; reflexivity.
  - intros d1 d2 h promo seasonality.
    eexists _, _, _. split; [reflexivity|].
    cbn [trace]. now rewrite <- app_assoc.
  - discriminate.
Qed.

End SampleNames.

(** ** Column Router *)

Section ColumnRouter.
Import props.
Variable re_match : string -> string -> bool.

Lemma filter_subsequence (f : string -> bool) (l : list string) :
  subsequence (filter f l) l.
Proof.
  induction l as [|x l IH]; simpl; [constructor|].
  destruct (f x); now constructor.
Qed.

Lemma filter_idempotent (f : string -> bool) (l : list string) :
  filter f (filter f l) = filter f l.
Proof.
  induction l as [|x l IH]; simpl; [reflexivity|].
  destruct (f x) eqn:E; simpl; [rewrite E|]; congruence.
Qed.

(** C7: for every column list and every pattern, [match_columns] (of
    [BaseEffect] and of [AbstractEffect]) returns a subsequence of the
    input columns in their input order, made of exactly the columns the
    pattern matches, and matching its own result again returns the same
    columns. *)
Theorem match_columns_subsequence_idempotent :
  forall (pattern : string) (columns : list string),
    (forall (Self : Type) (E : base.Effect Self) (self : Self),
        base.regex (base.super self) = Some pattern ->
        exists matched,
          base.match_columns re_match self columns = Ok matched /\
          subsequence matched columns /\
          (forall c, In c matched <-> In c columns /\ re_match pattern c = true) /\
          base.match_columns re_match self matched = Ok matched) /\
    (forall self : effects_py.AbstractEffect,
        effects_py.regex self = Some pattern ->
        exists matched,
          effects_py.match_columns re_match self columns = Ok matched /\
          subsequence matched columns /\
          (forall c, In c matched <-> In c columns /\ re_match pattern c = true) /\
          effects_py.match_columns re_match self matched = Ok matched).
Proof.
  intros pattern columns. split.
  - intros Self E self Hre. unfold base.match_columns. rewrite Hre.
    exists (filter (re_match pattern) columns).
    split; [reflexivity|]. split; [apply filter_subsequence|].
    split; [intros c; apply filter_In|].
    now rewrite filter_idempotent.
  - intros self Hre. unfold effects_py.match_columns. rewrite Hre.
    exists (filter (re_match pattern) columns).
    split; [reflexivity|]. split; [apply filter_subsequence|].
    split; [intros c; apply filter_In|].
    now rewrite filter_idempotent.
Qed.

End ColumnRouter.

Lemma match_columns_subsequence_idempotent_witness :
  let columns := ["promo_tv"; "price"; "promo_radio"] in
  (exists matched,
      base.match_columns Re.re_match
        (base.BaseEffect__init__ "promo" (Some "promo")) columns = Ok matched /\
      props.subsequence matched columns /\
      (forall c, In c matched <->
                 In c columns /\ Re.re_match "promo" c = true) /\
      base.match_columns Re.re_match
        (base.BaseEffect__init__ "promo" (Some "promo")) matched = Ok matched) /\
  (exists matched,
      effects_py.match_columns Re.re_match
        (effects_py.mk_AbstractEffect "promo" (Some "promo")) columns = Ok matched /\
      props.subsequence matched columns /\
      (forall c, In c matched <->
                 In c columns /\ Re.re_match "promo" c = true) /\
      effects_py.match_columns Re.re_match
        (effects_py.mk_AbstractEffect "promo" (Some "promo")) matched = Ok matched).
Proof.
  intros columns.
  destruct (match_columns_subsequence_idempotent Re.re_match "promo" columns)
    as [Hbase Habstract].
  split.
  - apply (Hbase _ _ (base.BaseEffect__init__ "promo" (Some "promo"))).
    reflexivity.
  - apply (Habstract (effects_py.mk_AbstractEffect "promo" (Some "promo"))).
    reflexivity.
Defined.

(** ** Composition algebra *)

Section Composition.
Import numpyro.

(** C8: [BaseAdditiveOrMultiplicativeEffect.apply] returns the raw value
    of [_apply] unchanged in additive mode, and [trend * raw] otherwise;
    on a trend and a raw value of the same shape that product is taken
    element by element.  The mode is the attribute [effect_mode] the
    constructor stored in the effect, which [apply] only reads. *)
Theorem composition_additive_identity_multiplicative_product :
  forall (Self : Type) (E : base.Effect Self)
         (A : base.AdditiveOrMultiplicative Self)
         (self : Self) (trend raw : ndarray) (kwargs : dict ndarray)
         (h h' : handler),
    base._apply self trend kwargs h = Ok (raw, h') ->
    (base.effect_mode self = "additive" ->
     base.BaseAdditiveOrMultiplicativeEffect_apply self trend kwargs h
     = Ok (raw, h')) /\
    (base.effect_mode self <> "additive" ->
     base.BaseAdditiveOrMultiplicativeEffect_apply self trend kwargs h
     = match multiply trend raw with
       | Ok product => Ok (product, h')
       | Raise e => Raise e
       end) /\
    (base.effect_mode self <> "additive" ->
     shape trend = shape raw -> well_formed trend -> well_formed raw ->
     base.BaseAdditiveOrMultiplicativeEffect_apply self trend kwargs h
     = Ok (mk_ndarray (shape raw) (zip_with Rmult (flat trend) (flat raw)), h')).
Proof.
  intros Self E A self trend raw kwargs h h' Hraw.
  assert (Happly : base.apply self trend kwargs h = Ok (raw, h')).
  { unfold base.apply, mbind. now rewrite Hraw. }
  unfold base.BaseAdditiveOrMultiplicativeEffect_apply, mbind.
  rewrite Happly.
  split; [|split].
  - intros Hmode. rewrite Hmode. reflexivity.
  - intros Hmode. apply String.eqb_neq in Hmode. rewrite Hmode.
    unfold lift. reflexivity.
  - intros Hmode Hs Ht Hr. apply String.eqb_neq in Hmode. rewrite Hmode.
    unfold lift, multiply. now rewrite broadcast2_same_shape.
Qed.

End Composition.

(** ** The Log effect *)

Section LogEffect.
Import numpyro props.

Lemma map_elems_map_elems (f g : R -> R) (a : ndarray) :
  map_elems f (map_elems g a) = map_elems (fun x => f (g x)) a.
Proof. unfold map_elems. simpl. now rewrite map_map. Qed.

Lemma LogEffect_apply_run (self : log.LogEffect) (trend data : ndarray)
    (kwargs rest : dict ndarray) (h : handler) (scale rate : R) :
  let scale_site := (base.id (log.log_super self) ++ "__" ++ "log_scale")%string in
  let rate_site := (base.id (log.log_super self) ++ "__" ++ "log_rate")%string in
  dict_pop kwargs "data" = Ok (data, rest) ->
  well_formed data ->
  draw h scale_site (log.scale_prior self) = scalar scale ->
  draw h rate_site (log.rate_prior self) = scalar rate ->
  log.LogEffect_apply self trend kwargs h
  = Ok (map_elems (log_raw scale rate) data,
        mk_handler (draw h) (trace h ++ [scale_site; rate_site])).
Proof.
  intros scale_site rate_site Hpop Hwf Hs Hr.
  unfold log.LogEffect_apply, mbind, lift, base.sample. rewrite Hpop.
  rewrite !sample_run. cbn [draw trace].
  fold scale_site rate_site. rewrite Hs, Hr.
  unfold multiply, add.
  rewrite broadcast2_scalar_l by exact Hwf.
  rewrite broadcast2_scalar_r by (now apply map_elems_well_formed).
  unfold jnp.log, clip_min. rewrite !map_elems_map_elems.
  rewrite broadcast2_scalar_l by (now apply map_elems_well_formed).
  rewrite map_elems_map_elems. unfold ret.
  now rewrite <- app_assoc.
Qed.

Lemma clip_floor_positive (x : R) : (0 < Rmax x 1e-8)%R.
Proof.
  apply Rlt_le_trans with (r2 := 1e-8%R); [lra | apply Rmax_r].
Qed.

Lemma log_raw_at_zero : log_raw 2 1 0 = 0%R.
Proof.
  unfold log_raw. replace (1 * 0 + 1)%R with 1%R by lra.
  rewrite Rmax_left by lra. rewrite ln_1. lra.
Qed.

Lemma log_raw_at_e_minus_1 : log_raw 2 1 (exp 1 - 1) = 2%R.
Proof.
  unfold log_raw. replace (1 * (exp 1 - 1) + 1)%R with (exp 1) by lra.
  rewrite Rmax_left.
  - rewrite ln_exp. lra.
  - pose proof (exp_pos 1). pose proof (exp_ineq1 1). lra.
Qed.

(** C5: for every (well-formed) data tensor and scalar draws [scale] and
    [rate], the raw value of the Log effect ([LogEffect._apply] of
    [log.py]) is, element by element,
    [scale * log(clip(rate * data + 1, 1e-8))]; the clipped argument of
    the logarithm is positive for every input, also when
    [rate * data <= -1]; in additive mode with [scale = 2], [rate = 1]
    and [data = [0, e - 1]] the effect returns [[0, 2]]. *)
Theorem log_effect_raw_value_is_clipped_log :
  forall (self : log.LogEffect) (trend data : ndarray)
         (kwargs rest : dict ndarray) (h : handler) (scale rate : R),
    let scale_site := (base.id (log.log_super self) ++ "__" ++ "log_scale")%string in
    let rate_site := (base.id (log.log_super self) ++ "__" ++ "log_rate")%string in
    dict_pop kwargs "data" = Ok (data, rest) ->
    well_formed data ->
    draw h scale_site (log.scale_prior self) = scalar scale ->
    draw h rate_site (log.rate_prior self) = scalar rate ->
    exists h',
      base._apply self trend kwargs h
      = Ok (mk_ndarray (shape data)
              (map (fun d => (scale * ln (Rmax (rate * d + 1) 1e-8))%R)
                 (flat data)), h') /\
      (forall d, (0 < Rmax (rate * d + 1) 1e-8)%R) /\
      (log.log_effect_mode self = "additive" ->
       scale = 2%R -> rate = 1%R -> data = array1 [0%R; (exp 1 - 1)%R] ->
       base.BaseAdditiveOrMultiplicativeEffect_apply self trend kwargs h
       = Ok (array1 [0%R; 2%R], h')).
Proof.
  intros self trend data kwargs rest h scale rate scale_site rate_site
    Hpop Hwf Hs Hr.
  pose proof (LogEffect_apply_run self trend data kwargs rest h scale rate
                Hpop Hwf Hs Hr) as Hrun.
  eexists. split; [exact Hrun|]. split.
  - intros d. apply clip_floor_positive.
  - intros Hmode -> -> ->.
    unfold base.BaseAdditiveOrMultiplicativeEffect_apply, base.apply, mbind.
    cbn [base._apply log.LogEffect_Effect]. rewrite Hrun.
    cbn [base.effect_mode log.LogEffect_AdditiveOrMultiplicative].
    rewrite Hmode. unfold ret, map_elems, array1. cbn [String.eqb Ascii.eqb Bool.eqb shape flat map length].
    now rewrite log_raw_at_zero, log_raw_at_e_minus_1.
Qed.

(** The Log effect of the older hierarchy ([LogEffect.compute_effect] of
    [effects.py]) takes the logarithm of [rate * data + 1] as it is; its
    additive value is that of [log.py] on the data for which
    [rate * data + 1] stays at or above the floor. *)
Lemma legacy_log_effect_agrees_above_floor :
  forall (self : effects_py.LogEffect) (trend data : ndarray) (h : handler)
         (scale rate : R),
    let scale_site := (effects_py.id (effects_py.log_super self) ++ "__" ++ "log_scale")%string in
    let rate_site := (effects_py.id (effects_py.log_super self) ++ "__" ++ "log_rate")%string in
    effects_py.log_effect_mode self = "additive" ->
    well_formed data ->
    draw h scale_site (effects_py.scale_prior self) = scalar scale ->
    draw h rate_site (effects_py.rate_prior self) = scalar rate ->
    exists h',
      effects_py.LogEffect_compute_effect self trend data h
      = Ok (map_elems (fun d => (scale * ln (rate * d + 1))%R) data, h') /\
      (Forall (fun d => (1e-8 <= rate * d + 1)%R) (flat data) ->
       effects_py.LogEffect_compute_effect self trend data h
       = Ok (map_elems (log_raw scale rate) data, h')).
Proof.
  intros self trend data h scale rate scale_site rate_site Hmode Hwf Hs Hr.
  assert (Hrun : effects_py.LogEffect_compute_effect self trend data h
                 = Ok (map_elems (fun d => (scale * ln (rate * d + 1))%R) data,
                       mk_handler (draw h) (trace h ++ [scale_site; rate_site]))).
  { unfold effects_py.LogEffect_compute_effect, mbind, lift, effects_py.sample.
    rewrite !sample_run. cbn [draw trace].
    fold scale_site rate_site. rewrite Hs, Hr.
    unfold multiply, add.
    rewrite broadcast2_scalar_l by exact Hwf.
    rewrite broadcast2_scalar_r by (now apply map_elems_well_formed).
    unfold jnp.log. rewrite !map_elems_map_elems.
    rewrite broadcast2_scalar_l by (now apply map_elems_well_formed).
    rewrite map_elems_map_elems, Hmode. unfold ret.
    now rewrite <- app_assoc. }
  eexists. split; [exact Hrun|].
  intros Hfloor. rewrite Hrun. do 2 f_equal.
  unfold map_elems. f_equal. apply map_ext_in. intros d Hd.
  rewrite Forall_forall in Hfloor. specialize (Hfloor d Hd).
  unfold log_raw. now rewrite Rmax_left.
Qed.

End LogEffect.

Lemma log_effect_raw_value_is_clipped_log_witness :
  let self := log.LogEffect__init__ "promo" None "additive" None None in
  let data := array1 [0%R; (exp 1 - 1)%R] in
  let h := props.scenario_handler
             [("promo__log_scale", 2%R); ("promo__log_rate", 1%R)] 0 in
  exists h',
    base._apply self (array1 [1%R; 1%R]) [("data", data)] h
    = Ok (mk_ndarray (shape data)
            (map (fun d => (2 * ln (Rmax (1 * d + 1) 1e-8))%R) (flat data)), h') /\
    (forall d, (0 < Rmax (1 * d + 1) 1e-8)%R) /\
    (log.log_effect_mode self = "additive" ->
     2%R = 2%R -> 1%R = 1%R -> data = array1 [0%R; (exp 1 - 1)%R] ->
     base.BaseAdditiveOrMultiplicativeEffect_apply self (array1 [1%R; 1%R])
       [("data", data)] h
     = Ok (array1 [0%R; 2%R], h')).
Proof.
  intros self data h.
  apply (log_effect_raw_value_is_clipped_log self (array1 [1%R; 1%R]) data
           [("data", data)] [] h 2 1); reflexivity.
Defined.

Lemma composition_additive_identity_multiplicative_product_witness :
  let self := log.LogEffect__init__ "promo" None "multiplicative" None None in
  let h := props.scenario_handler
             [("promo__log_scale", 2%R); ("promo__log_rate", 1%R)] 0 in
  let trend := array1 [3%R; 4%R] in
  let kwargs := [("data", array1 [0%R; (exp 1 - 1)%R])] in
  exists h',
    base.BaseAdditiveOrMultiplicativeEffect_apply self trend kwargs h
    = Ok (mk_ndarray [2]
            (zip_with Rmult [3%R; 4%R]
               (map (props.log_raw 2 1) [0%R; (exp 1 - 1)%R])), h').
Proof.
  intros self h trend kwargs.
  pose proof (LogEffect_apply_run self trend (array1 [0%R; (exp 1 - 1)%R])
                kwargs [] h 2 1 eq_refl eq_refl eq_refl eq_refl) as Hrun.
  eexists.
  match type of Hrun with
  | _ = Ok (?raw, ?h') =>
      destruct (composition_additive_identity_multiplicative_product
                  log.LogEffect log.LogEffect_Effect
                  log.LogEffect_AdditiveOrMultiplicative
                  self trend raw kwargs h h' Hrun)
        as (_ & _ & Hproduct)
  end.
  apply Hproduct; [discriminate | reflexivity | reflexivity | reflexivity].
Defined.

(** ** Lifecycle *)

Section Lifecycle.
Import numpyro.

Lemma apply_is_hook (Self : Type) (E : base.Effect Self) (self : Self)
    (trend : ndarray) (kwargs : dict ndarray) (h : handler) :
  base.apply self trend kwargs h = base._apply self trend kwargs h.
Proof.
  unfold base.apply, mbind, ret.
  destruct (base._apply self trend kwargs h) as [[x h']|e]; reflexivity.
Qed.

(** C1, as the code has it: [prepare_input_data] on an effect that is
    not initialized raises the lifecycle error; [apply] does not look at
    the lifecycle state, its outcome is that of the [_apply] hook of the
    effect (combined with the trend for an additive-or-multiplicative
    effect), and the hook of [BaseEffect] itself raises
    [NotImplementedError]. *)
Theorem prepare_input_data_requires_initialize_apply_does_not :
  forall (Self : Type) (E : base.Effect Self) (self : Self)
         (X : base.DataFrame) (stage : base.Stage)
         (trend : ndarray) (kwargs : dict ndarray) (h : handler),
    base._is_initialized (base.super self) = false ->
    base.prepare_input_data self X stage = Raise base.not_initialized /\
    base.apply self trend kwargs h = base._apply self trend kwargs h /\
    (forall b : base.BaseEffect,
        base.apply b trend kwargs h
        = Raise (NotImplementedError "Subclasses must implement _apply()")).
Proof.
  intros Self E self X stage trend kwargs h Hinit.
  split; [|split].
  - unfold base.prepare_input_data. now rewrite Hinit.
  - apply apply_is_hook.
  - intros b. reflexivity.
Qed.

(** C1 fails on [apply]: a Log effect that was never initialized applies
    without any error. *)
Lemma apply_before_initialize_returns_a_value :
  let self := log.LogEffect__init__ "promo" None "additive" None None in
  let h := mk_handler (fun _ _ => scalar 1) [] in
  let kwargs := [("data", array1 [0%R])] in
  base._is_initialized (base.super self) = false /\
  base.prepare_input_data self (base.mk_DataFrame ["promo_tv"] 1 [[[0%R]]])
    base.TRAIN = Raise base.not_initialized /\
  exists value h',
    base.BaseAdditiveOrMultiplicativeEffect_apply self (array1 [1%R]) kwargs h
    = Ok (value, h').
Proof.
  intros self h kwargs. split; [reflexivity|]. split; [reflexivity|].
  unfold base.BaseAdditiveOrMultiplicativeEffect_apply, mbind. rewrite apply_is_hook.
  cbn [base._apply log.LogEffect_Effect].
  rewrite (LogEffect_apply_run self (array1 [1%R]) (array1 [0%R]) kwargs [] h 1 1)
    by reflexivity.
  eexists _, _. reflexivity.
Qed.

End Lifecycle.

Lemma prepare_input_data_requires_initialize_apply_does_not_witness :
  let self := log.LogEffect__init__ "promo" (Some "promo") "additive" None None in
  let h := numpyro.mk_handler (fun _ _ => scalar 1) [] in
  let X := base.mk_DataFrame ["promo_tv"] 1 [[[0%R]]] in
  base.prepare_input_data self X base.TRAIN = Raise base.not_initialized /\
  base.apply self (array1 [1%R]) [("data", array1 [0%R])] h
  = base._apply self (array1 [1%R]) [("data", array1 [0%R])] h /\
  (forall b : base.BaseEffect,
      base.apply b (array1 [1%R]) [("data", array1 [0%R])] h
      = Raise (NotImplementedError "Subclasses must implement _apply()")).
Proof.
  intros self h X.
  apply (prepare_input_data_requires_initialize_apply_does_not
           log.LogEffect _ self X base.TRAIN).
  reflexivity.
Defined.

(** ** The matrix product with the coefficient column *)

Section MatrixProduct.

Lemma chunks_length (fuel n : nat) :
  forall l, length (chunks fuel n l) = fuel.
Proof.
  induction fuel as [|fuel IH]; intros l; cbn [chunks length];
    [reflexivity | now rewrite IH].
Qed.

Lemma chunks_nth (fuel n : nat) :
  forall l i, i < fuel ->
              nth i (chunks fuel n l) [] = firstn n (skipn (i * n) l).
Proof.
  induction fuel as [|fuel IH]; intros l i Hi; [lia|].
  cbn [chunks]. destruct i as [|i]; [reflexivity|].
  cbn [nth]. rewrite IH by lia. rewrite skipn_skipn.
  f_equal. f_equal. simpl. lia.
Qed.

Lemma size_of_app (s1 s2 : list nat) :
  size_of (s1 ++ s2) = size_of s1 * size_of s2.
Proof.
  unfold size_of. induction s1 as [|d s1 IH]; cbn [app fold_right];
    [lia | rewrite IH; lia].
Qed.

Lemma size_of_rev (s : list nat) : size_of (rev s) = size_of s.
Proof.
  induction s as [|d s IH]; [reflexivity|].
  cbn [rev]. rewrite size_of_app, IH. unfold size_of. simpl. lia.
Qed.

Lemma matmul_column_run (data col : ndarray) (lead : list nat) (n : nat) :
  shape data = lead ++ [n] ->
  length (flat col) = n ->
  matmul_column data col
  = Ok (mk_ndarray (match lead with [] => [1] | _ :: _ => lead ++ [1] end)
          (map (fun r => dot r (flat col))
             (chunks (size_of lead) n (flat data)))).
Proof.
  intros Hshape Hlen. unfold matmul_column.
  rewrite Hshape, rev_app_distr. cbn [rev app].
  rewrite Hlen, Nat.eqb_refl, size_of_rev.
  destruct lead as [|d lead]; [reflexivity|].
  destruct (rev (d :: lead)) as [|x xs] eqn:Erev.
  - apply (f_equal (@length nat)) in Erev. rewrite length_rev in Erev.
    discriminate.
  - rewrite <- Erev, rev_involutive. reflexivity.
Qed.

Lemma matmul_column_mismatch (data col : ndarray) (lead : list nat) (n : nat) :
  shape data = lead ++ [n] ->
  length (flat col) <> n ->
  matmul_column data col
  = Raise (TypeError "matmul: contracting dimensions differ").
Proof.
  intros Hshape Hlen. unfold matmul_column.
  rewrite Hshape, rev_app_distr. cbn [rev app].
  apply not_eq_sym in Hlen. apply Nat.eqb_neq in Hlen. now rewrite Hlen.
Qed.

End MatrixProduct.

(** ** The dimension guard of [effect_apply.py] *)

Section DimensionGuard.
Import effect_apply algebric_operations.

Lemma matrix_multiplication_2d (data coefficients : ndarray) (t n : nat) :
  shape data = [t; n] ->
  well_formed coefficients ->
  shape coefficients = [n] \/ shape coefficients = [n; 1] ->
  exists product,
    matrix_multiplication data coefficients = Ok product /\
    shape product = [t; 1].
Proof.
  intros Hd Hc Hshape.
  assert (Hlen : length (flat coefficients) = n).
  { unfold well_formed in Hc. rewrite Hc.
    destruct Hshape as [-> | ->]; simpl; lia. }
  unfold matrix_multiplication, matmul_column, reshape_column.
  rewrite Hd. cbn [rev app flat]. rewrite Hlen, Nat.eqb_refl.
  eexists. split; reflexivity.
Qed.

Lemma guard_passes (trend data coefficients : ndarray) (d : nat) :
  shape_at data 1 = Ok d ->
  shape_at coefficients 0 = Ok d ->
  additive_effect data coefficients
  = matrix_multiplication data coefficients /\
  multiplicative_effect trend data coefficients
  = Py.bind (matrix_multiplication data coefficients) (multiply trend).
Proof.
  intros Hd Hc. unfold additive_effect, multiplicative_effect.
  rewrite Hd, Hc. cbn [Py.bind]. rewrite Nat.eqb_refl. now split.
Qed.

Lemma guard_raises (trend data coefficients : ndarray) (d1 c0 : nat) :
  shape_at data 1 = Ok d1 ->
  shape_at coefficients 0 = Ok c0 ->
  d1 <> c0 ->
  additive_effect data coefficients = Raise dimension_mismatch /\
  multiplicative_effect trend data coefficients = Raise dimension_mismatch.
Proof.
  intros Hd Hc Hne. unfold additive_effect, multiplicative_effect.
  rewrite Hd, Hc. cbn [Py.bind].
  apply Nat.eqb_neq in Hne. rewrite Hne. now split.
Qed.

(** C4: the guard of [additive_effect] and [multiplicative_effect] tests
    [data.shape[1]] against [coefficients.shape[0]].  On two-dimensional
    data that is the trailing extent and the functions do what the claim
    says: the dimension-mismatch error when the extents differ; with
    equal extents and a coefficient vector or column no error from
    [additive_effect], whose result has one column, and none from
    [multiplicative_effect] for any trend that broadcasts against that
    result.  On three-dimensional data of shape [(b, m, n)] with
    [m <> n] they do not: with [n] coefficients the trailing extent
    equals the number of coefficients and the matrix product is defined,
    of shape [(b, m, 1)], each element the product of a row of the data
    with the coefficients, yet both functions raise the dimension-mismatch
    error; and with [m] coefficients the trailing extent differs, the
    guard lets the call through and the failure is the [TypeError] of the
    matrix product. *)
Theorem dimension_guard_reads_the_second_axis :
  forall (trend data coefficients : ndarray),
    well_formed coefficients ->
    (forall t n : nat,
        shape data = [t; n] ->
        (forall c0 : nat,
            shape_at coefficients 0 = Ok c0 -> n <> c0 ->
            additive_effect data coefficients = Raise dimension_mismatch /\
            multiplicative_effect trend data coefficients
            = Raise dimension_mismatch) /\
        (shape coefficients = [n] \/ shape coefficients = [n; 1] ->
         exists product,
           additive_effect data coefficients = Ok product /\
           shape product = [t; 1] /\
           forall s, broadcast_shapes (shape trend) [t; 1] = Some s ->
                     exists effect,
                       multiplicative_effect trend data coefficients
                       = Ok effect /\
                       shape effect = s)) /\
    (forall b m n : nat,
        shape data = [b; m; n] ->
        m <> n ->
        (shape coefficients = [n] ->
         (exists product,
             matrix_multiplication data coefficients = Ok product /\
             shape product = [b; m; 1] /\
             forall i, i < size_of [b; m] ->
                       nth i (flat product) 0%R
                       = dot (firstn n (skipn (i * n) (flat data)))
                           (flat coefficients)) /\
         additive_effect data coefficients = Raise dimension_mismatch /\
         multiplicative_effect trend data coefficients
         = Raise dimension_mismatch) /\
        (shape coefficients = [m] ->
         exists message,
           additive_effect data coefficients = Raise (TypeError message) /\
           multiplicative_effect trend data coefficients
           = Raise (TypeError message))).
Proof.
  intros trend data coefficients Hwf. split.
  - intros t n Hd.
    assert (Hd1 : shape_at data 1 = Ok n) by (unfold shape_at; now rewrite Hd).
    split.
    + intros c0 Hc Hne. now apply (guard_raises trend data coefficients n c0).
    + intros Hshape.
      assert (Hc : shape_at coefficients 0 = Ok n).
      { unfold shape_at. now destruct Hshape as [-> | ->]. }
      destruct (guard_passes trend data coefficients n Hd1 Hc) as [Ha Hm].
      destruct (matrix_multiplication_2d data coefficients t n Hd Hwf Hshape)
        as [product [Hrun Hp]].
      exists product. rewrite Ha, Hm, Hrun. cbn [Py.bind].
      split; [reflexivity|]. split; [exact Hp|].
      intros s Hs. unfold multiply, broadcast2. rewrite Hp, Hs.
      eexists. split; reflexivity.
  - intros b m n Hd Hne.
    assert (Hd1 : shape_at data 1 = Ok m) by (unfold shape_at; now rewrite Hd).
    split.
    + intros Hshape.
      assert (Hc : shape_at coefficients 0 = Ok n)
        by (unfold shape_at; now rewrite Hshape).
      assert (Hlen : length (flat coefficients) = n).
      { unfold well_formed in Hwf. rewrite Hwf, Hshape. simpl. lia. }
      split; [|now apply (guard_raises trend data coefficients m n)].
      unfold matrix_multiplication.
      rewrite (matmul_column_run data (reshape_column coefficients) [b; m] n)
        by (assumption || exact Hlen).
      eexists. split; [reflexivity|]. cbn [shape flat reshape_column app].
      split; [reflexivity|]. intros i Hi.
      rewrite nth_indep with (d' := dot [] (flat coefficients))
        by (now rewrite length_map, chunks_length).
      rewrite (map_nth (fun r => dot r (flat coefficients))).
      now rewrite chunks_nth.
    + intros Hshape.
      assert (Hc : shape_at coefficients 0 = Ok m)
        by (unfold shape_at; now rewrite Hshape).
      assert (Hlen : length (flat coefficients) = m).
      { unfold well_formed in Hwf. rewrite Hwf, Hshape. simpl. lia. }
      destruct (guard_passes trend data coefficients m Hd1 Hc) as [Ha Hm].
      eexists. rewrite Ha, Hm. unfold matrix_multiplication.
      rewrite (matmul_column_mismatch data (reshape_column coefficients)
                 [b; m] n Hd)
        by (cbn [flat reshape_column]; congruence).
      split; reflexivity.
Qed.

End DimensionGuard.

Lemma dimension_guard_reads_the_second_axis_witness :
  let coefficients := array1 [1%R; 1%R; 1%R] in
  let data := mk_ndarray [1; 2; 3] [1%R; 0%R; 0%R; 0%R; 1%R; 0%R] in
  let trend := mk_ndarray [1; 2; 1] [1%R; 1%R] in
  (exists product,
      algebric_operations.matrix_multiplication data coefficients = Ok product /\
      shape product = [1; 2; 1] /\
      nth 1 (flat product) 0%R = dot [0%R; 1%R; 0%R] [1%R; 1%R; 1%R]) /\
  effect_apply.additive_effect data coefficients
  = Raise effect_apply.dimension_mismatch /\
  effect_apply.multiplicative_effect trend data coefficients
  = Raise effect_apply.dimension_mismatch.
Proof.
  intros coefficients data trend.
  destruct (dimension_guard_reads_the_second_axis trend data coefficients
              eq_refl) as [_ Hthree].
  destruct (Hthree 1 2 3 eq_refl) as [Htrailing _]; [lia|].
  destruct (Htrailing eq_refl) as [[product (Hrun & Hshape & Hnth)] Hraise].
  split; [|exact Hraise].
  exists product. split; [exact Hrun|]. split; [exact Hshape|].
  apply (Hnth 1). simpl. lia.
Defined.

(** ** The Hill effect on positive data *)

Section HillEffect.
Import numpyro props.

Variable _exponent_safe : ndarray -> ndarray -> result ndarray.
(** The value of the safe exponentiation on one base and one exponent. *)
Variable safe_power : R -> R -> R.

Hypothesis exponent_safe_elementwise :
  forall (a : ndarray) (p : R),
    well_formed a ->
    _exponent_safe a (scalar p) = Ok (map_elems (fun x => safe_power x p) a).

Lemma HillEffect_compute_effect_run (self : effects_pkg.HillEffect)
    (trend data : ndarray) (h : handler) (half_max slope max_effect : R) :
  let name := effects_py.id (effects_pkg.hill_super self) in
  let sites := [(name ++ "__" ++ "half_max")%string;
                (name ++ "__" ++ "slope")%string;
                (name ++ "__" ++ "max_effect")%string] in
  well_formed data ->
  draw h (name ++ "__" ++ "half_max")%string (effects_pkg.half_max_prior self)
  = scalar half_max ->
  draw h (name ++ "__" ++ "slope")%string (effects_pkg.slope_prior self)
  = scalar slope ->
  draw h (name ++ "__" ++ "max_effect")%string (effects_pkg.max_effect_prior self)
  = scalar max_effect ->
  effects_pkg.HillEffect_compute_effect _exponent_safe self trend data h
  = let raw := map_elems (hill_raw safe_power half_max slope max_effect) data in
    let h' := mk_handler (draw h) (trace h ++ sites) in
    if String.eqb (effects_pkg.hill_effect_mode self) "additive"
    then Ok (raw, h')
    else match multiply trend raw with
         | Ok product => Ok (product, h')
         | Raise e => Raise e
         end.
Proof.
  intros name sites Hwf Hh Hs Hm.
  unfold effects_pkg.HillEffect_compute_effect, mbind, lift, effects_py.sample.
  rewrite !sample_run. cbn [draw trace]. fold name. rewrite Hh, Hs, Hm.
  unfold divide, add.
  rewrite broadcast2_scalar_r by exact Hwf.
  change (negative (scalar slope)) with (scalar (- slope)).
  rewrite exponent_safe_elementwise by (now apply map_elems_well_formed).
  rewrite map_elems_map_elems.
  rewrite broadcast2_scalar_l by (now apply map_elems_well_formed).
  rewrite map_elems_map_elems.
  rewrite broadcast2_scalar_l by (now apply map_elems_well_formed).
  rewrite map_elems_map_elems.
  cbv zeta. unfold ret, sites. rewrite <- !app_assoc. cbn [app].
  destruct (String.eqb (effects_pkg.hill_effect_mode self) "additive");
    reflexivity.
Qed.

Lemma hill_raw_scenario_1 :
  (forall x p, (0 < x)%R -> safe_power x p = Rpower x p) ->
  hill_raw safe_power 1 1 10 1 = 5%R.
Proof.
  intros Hpos. unfold hill_raw.
  replace (1 / 1)%R with 1%R by lra.
  rewrite Hpos by lra. rewrite Rpower_Ropp, Rpower_1 by lra. lra.
Qed.

Lemma hill_raw_scenario_3 :
  (forall x p, (0 < x)%R -> safe_power x p = Rpower x p) ->
  hill_raw safe_power 1 1 10 3 = 7.5%R.
Proof.
  intros Hpos. unfold hill_raw.
  replace (3 / 1)%R with 3%R by lra.
  rewrite Hpos by lra. rewrite Rpower_Ropp, Rpower_1 by lra. lra.
Qed.

(** What [HillEffect.compute_effect] of [effects/effects.py] does with
    the exponentiation helper, whatever the helper returns on a zero or a
    negative base: when the helper acts element by element, the raw
    value is, element by element,
    [max_effect / (1 + safe_power (data / half_max) (- slope))]; where
    the helper is the power, which is assumed on the positive bases only,
    this is [max_effect / (1 + (data / half_max) ** - slope)]; the
    effect is the raw value in additive mode and [trend * raw] otherwise;
    in multiplicative mode with [half_max = 1], [slope = 1],
    [max_effect = 10], [trend = [1, 1]] and [data = [1, 3]] the effect is
    [[5, 7.5]].  Nothing is said of the value on data that is zero or
    negative: the helper is not among the sources. *)
Lemma hill_effect_with_exponentiation_helper :
  forall (self : effects_pkg.HillEffect) (trend data : ndarray) (h : handler)
         (half_max slope max_effect : R),
    let name := effects_py.id (effects_pkg.hill_super self) in
    (forall x p, (0 < x)%R -> safe_power x p = Rpower x p) ->
    well_formed data ->
    draw h (name ++ "__" ++ "half_max")%string (effects_pkg.half_max_prior self)
    = scalar half_max ->
    draw h (name ++ "__" ++ "slope")%string (effects_pkg.slope_prior self)
    = scalar slope ->
    draw h (name ++ "__" ++ "max_effect")%string (effects_pkg.max_effect_prior self)
    = scalar max_effect ->
    exists h',
      let raw :=
        mk_ndarray (shape data)
          (map (fun d => (max_effect / (1 + safe_power (d / half_max) (- slope)))%R)
             (flat data)) in
      (effects_pkg.hill_effect_mode self = "additive" ->
       effects_pkg.HillEffect_compute_effect _exponent_safe self trend data h
       = Ok (raw, h')) /\
      (effects_pkg.hill_effect_mode self <> "additive" ->
       effects_pkg.HillEffect_compute_effect _exponent_safe self trend data h
       = match multiply trend raw with
         | Ok product => Ok (product, h')
         | Raise e => Raise e
         end) /\
      (forall d, (0 < d / half_max)%R ->
                 (max_effect / (1 + safe_power (d / half_max) (- slope)))%R
                 = (max_effect / (1 + Rpower (d / half_max) (- slope)))%R) /\
      (effects_pkg.hill_effect_mode self = "multiplicative" ->
       half_max = 1%R -> slope = 1%R -> max_effect = 10%R ->
       trend = array1 [1%R; 1%R] -> data = array1 [1%R; 3%R] ->
       effects_pkg.HillEffect_compute_effect _exponent_safe self trend data h
       = Ok (array1 [5%R; 7.5%R], h')).
Proof.
  intros self trend data h half_max slope max_effect name Hpos Hwf Hh Hs Hm.
  pose proof (HillEffect_compute_effect_run self trend data h half_max slope
                max_effect Hwf Hh Hs Hm) as Hrun.
  cbv zeta in Hrun. eexists. cbv zeta.
  split; [|split; [|split]].
  - intros Hmode. rewrite Hrun, Hmode. reflexivity.
  - intros Hmode. apply String.eqb_neq in Hmode. rewrite Hrun, Hmode.
    reflexivity.
  - intros d Hd. now rewrite Hpos.
  - intros Hmode -> -> -> -> ->. rewrite Hrun, Hmode.
    cbn [String.eqb Ascii.eqb Bool.eqb].
    unfold multiply. rewrite broadcast2_same_shape by reflexivity.
    unfold map_elems, array1, zip_with.
    cbn [shape flat map length combine fst snd].
    rewrite (hill_raw_scenario_1 Hpos), (hill_raw_scenario_3 Hpos).
    do 3 f_equal. f_equal; [lra|]. f_equal. lra.
Qed.

End HillEffect.

(** The Hill effect of the older hierarchy ([HillEffect.compute_effect] of
    [effects.py]) uses the plain power; on data whose ratio to [half_max]
    is positive its additive value is the same saturation curve. *)
Lemma legacy_hill_effect_on_positive_data :
  forall (self : effects_py.HillEffect) (trend data : ndarray)
         (h : numpyro.handler) (half_max slope max_effect : R),
    let name := effects_py.id (effects_py.hill_super self) in
    effects_py.hill_effect_mode self = "additive" ->
    well_formed data ->
    numpyro.draw h (name ++ "__" ++ "half_max")%string (effects_py.half_max_prior self)
    = scalar half_max ->
    numpyro.draw h (name ++ "__" ++ "slope")%string (effects_py.slope_prior self)
    = scalar slope ->
    numpyro.draw h (name ++ "__" ++ "max_effect")%string (effects_py.max_effect_prior self)
    = scalar max_effect ->
    Forall (fun d => (0 < d / half_max)%R) (flat data) ->
    exists h',
      effects_py.HillEffect_compute_effect self trend data h
      = Ok (map_elems (props.hill_raw Rpower half_max slope max_effect) data, h').
Proof.
  intros self trend data h half_max slope max_effect name Hmode Hwf Hh Hs Hm _.
  unfold effects_py.HillEffect_compute_effect, numpyro.mbind, numpyro.lift,
    effects_py.sample.
  rewrite !sample_run. cbn [numpyro.draw numpyro.trace]. fold name.
  rewrite Hh, Hs, Hm.
  unfold divide, add, power, multiply.
  rewrite broadcast2_scalar_r by exact Hwf.
  change (negative (scalar slope)) with (scalar (- slope)).
  rewrite broadcast2_scalar_r by (now apply map_elems_well_formed).
  rewrite map_elems_map_elems.
  rewrite broadcast2_scalar_l by (now apply map_elems_well_formed).
  rewrite map_elems_map_elems.
  rewrite broadcast2_scalar_l by (now apply map_elems_well_formed).
  rewrite map_elems_map_elems.
  rewrite broadcast2_scalar_l by (now apply map_elems_well_formed).
  rewrite map_elems_map_elems, Hmode, String.eqb_refl. unfold numpyro.ret.
  eexists. do 2 f_equal. unfold map_elems. f_equal.
  apply map_ext. intros d. unfold props.hill_raw, Rdiv. ring.
Qed.

Lemma hill_effect_scenario_with_the_plain_power :
  let self := effects_pkg.HillEffect__init__ "hill" None None None None
                "multiplicative" in
  let h := props.scenario_handler
             [("hill__half_max", 1%R); ("hill__slope", 1%R);
              ("hill__max_effect", 10%R)] 0 in
  exists h',
    effects_pkg.HillEffect_compute_effect power self
      (array1 [1%R; 1%R]) (array1 [1%R; 3%R]) h
    = Ok (array1 [5%R; 7.5%R], h').
Proof.
  intros self h.
  destruct (hill_effect_with_exponentiation_helper power Rpower
              (fun a p Hwf => broadcast2_scalar_r Rpower a p Hwf)
              self (array1 [1%R; 1%R]) (array1 [1%R; 3%R]) h 1 1 10
              (fun x p _ => eq_refl) eq_refl eq_refl eq_refl eq_refl)
    as [h' (_ & _ & _ & Hscenario)].
  exists h'. apply Hscenario; reflexivity.
Defined.

(** ** The placement matrix of the heterogeneous-prior effect *)

Section ListFacts.

Lemma filter_map_swap {A B} (p : B -> bool) (g : A -> B) (l : list A) :
  filter p (map g l) = map g (filter (fun x => p (g x)) l).
Proof.
  induction l as [|x l IH]; simpl; [reflexivity|].
  destruct (p (g x)); simpl; now rewrite IH.
Qed.

Lemma get_loc_positions (f : string -> bool) (F : list string) :
  NoDup F ->
  map (effects_py.get_loc F) (filter f F)
  = filter (fun r => f (nth r F "")) (seq 0 (length F)).
Proof.
  induction F as [|x F IH]; intros Hnd; [reflexivity|].
  inversion Hnd as [|? ? Hx HF]; subst.
  cbn [length seq]. rewrite <- seq_shift. cbn [filter nth].
  rewrite filter_map_swap. cbn [nth]. rewrite <- (IH HF).
  assert (Htail : map (effects_py.get_loc (x :: F)) (filter f F)
                  = map S (map (effects_py.get_loc F) (filter f F))).
  { rewrite map_map. apply map_ext_in. intros c Hc.
    apply filter_In in Hc. destruct Hc as [Hc _]. cbn [effects_py.get_loc].
    destruct (String.eqb_spec x c) as [->|_]; [contradiction|reflexivity]. }
  destruct (f x).
  - rewrite !map_cons, Htail. f_equal.
    cbn [effects_py.get_loc]. now rewrite String.eqb_refl.
  - exact Htail.
Qed.



Lemma count_occ_concat (ls : list (list nat)) (r : nat) :
  count_occ Nat.eq_dec (concat ls) r
  = fold_right (fun l acc => count_occ Nat.eq_dec l r + acc) 0 ls.
Proof.
  induction ls as [|l ls IH]; simpl; [reflexivity|].
  now rewrite count_occ_app, IH.
Qed.

End ListFacts.

Section MatrixFacts.
Import props.

Lemma eye_row (n i : nat) :
  i < n ->
  nth i (eye n) [] = map (fun j => if Nat.eqb i j then 1%R else 0%R) (seq 0 n).
Proof.
  intros Hi. unfold eye.
  rewrite nth_indep with (d' := map (fun j => if Nat.eqb 0 j then 1%R else 0%R) (seq 0 n))
    by (now rewrite length_map, length_seq).
  rewrite (map_nth (fun i => map (fun j => if Nat.eqb i j then 1%R else 0%R) (seq 0 n))).
  now rewrite seq_nth.
Qed.

Lemma eye_entry (n i j : nat) :
  i < n -> j < n ->
  nth j (nth i (eye n) []) 0%R = if Nat.eqb i j then 1%R else 0%R.
Proof.
  intros Hi Hj. rewrite eye_row by exact Hi.
  rewrite nth_indep with (d' := if Nat.eqb i 0 then 1%R else 0%R)
    by (now rewrite length_map, length_seq).
  rewrite (map_nth (fun j => if Nat.eqb i j then 1%R else 0%R)).
  now rewrite seq_nth.
Qed.

Lemma block_is_indicator (n : nat) (idx : list nat) :
  idx <> [] -> (forall i, In i idx -> i < n) ->
  transpose (take (eye n) idx) = indicator_rows n idx.
Proof.
  intros Hne Hlt. unfold transpose, take, indicator_rows.
  destruct idx as [|i0 idx']; [contradiction|].
  assert (Hcols : length (hd [] (map (fun i => nth i (eye n) []) (i0 :: idx'))) = n).
  { cbn [map hd]. rewrite eye_row by (apply Hlt; now left).
    now rewrite length_map, length_seq. }
  rewrite Hcols. apply map_ext_in. intros j Hj. apply in_seq in Hj.
  rewrite map_map. apply map_ext_in. intros i Hi.
  apply eye_entry; [now apply Hlt | lia].
Qed.

Lemma combine_map_same {A B C} (f : A -> B) (g : A -> C) (l : list A) :
  combine (map f l) (map g l) = map (fun x => (f x, g x)) l.
Proof.
  induction l as [|x l IH]; simpl; [reflexivity | now rewrite IH].
Qed.

Lemma hstack_indicator (n : nat) (a b : list nat) :
  hstack (indicator_rows n a) (indicator_rows n b) = indicator_rows n (a ++ b).
Proof.
  unfold hstack, indicator_rows. rewrite combine_map_same, map_map.
  apply map_ext. intros r. cbn [fst snd]. now rewrite map_app.
Qed.

Lemma fold_hstack_indicator (n : nat) (idxs : list (list nat)) :
  forall first,
    fold_left hstack (map (indicator_rows n) idxs) (indicator_rows n first)
    = indicator_rows n (first ++ concat idxs).
Proof.
  induction idxs as [|idx idxs IH]; intros first; cbn [map fold_left concat].
  - now rewrite app_nil_r.
  - rewrite hstack_indicator, IH. now rewrite app_assoc.
Qed.

Lemma indicator_rows_length (n : nat) (idx : list nat) :
  length (indicator_rows n idx) = n.
Proof. unfold indicator_rows. now rewrite length_map, length_seq. Qed.

Lemma concatenate_axis1_indicator (n : nat) (idxs : list (list nat)) :
  idxs <> [] ->
  concatenate_axis1 (map (indicator_rows n) idxs)
  = Ok (indicator_rows n (concat idxs)).
Proof.
  destruct idxs as [|first idxs]; [contradiction|]. intros _.
  cbn [map concatenate_axis1].
  replace (forallb _ _) with true.
  - now rewrite fold_hstack_indicator.
  - symmetry. apply forallb_forall. intros m Hm. apply in_map_iff in Hm.
    destruct Hm as [idx [<- _]].
    rewrite !indicator_rows_length. apply Nat.eqb_refl.
Qed.

Lemma count_ones_indicator (idx : list nat) (r : nat) :
  count_ones (map (fun i => if Nat.eqb i r then 1%R else 0%R) idx)
  = count_occ Nat.eq_dec idx r.
Proof.
  unfold count_ones. induction idx as [|i idx IH]; [reflexivity|].
  cbn [map count_occ].
  destruct (Nat.eqb_spec i r) as [->|Hne].
  - destruct (Req_dec_T 1 1) as [_|Hc]; [|contradiction].
    destruct (Nat.eq_dec r r) as [_|Hc]; [|contradiction]. now rewrite IH.
  - destruct (Req_dec_T 0 1) as [Hc|_]; [lra|].
    destruct (Nat.eq_dec i r) as [Hc|_]; [contradiction|]. exact IH.
Qed.

(** The product of an indicator row with a vector, and [scatter]. *)








End MatrixFacts.

Section HeterogeneousPriors.
Import numpyro props effects_py.
Variable re_match : string -> string -> bool.
Variable self : LinearHeterogenousPriorsEffect.

Lemma loop_fold (items : list (nat * (string * prior))) :
  forall st,
    fold_left (loop_body re_match self) items st
    = mk_loop_state
        (matrices st
           ++ map (fun it => group_block re_match self (fst (snd it)))
                (filter (matches_some re_match self) items))
        (dists st
           ++ map (fun it => (coefficient_name (fst it),
                              group_distribution re_match self
                                (fst (snd it)) (snd (snd it))))
                (filter (matches_some re_match self) items))
        (logged st
           ++ map (fun it => warning_no_match (fst (snd it)))
                (filter (fun it => negb (matches_some re_match self it)) items)).
Proof.
  induction items as [|[i [regex p]] items IH]; intros st.
  - cbn [fold_left filter map]. rewrite !app_nil_r. now destruct st.
  - cbn [fold_left]. rewrite IH. unfold loop_body, matches_some.
    cbn [fst snd filter].
    destruct (Nat.eqb (length (group_idx re_match self regex)) 0);
      cbn [negb map matrices dists logged]; rewrite <- ?app_assoc; reflexivity.
Qed.

Lemma enumerate_positions (fp : dict prior) :
  forall k,
    map (fun it => group_idx re_match self (fst (snd it)))
      (filter (matches_some re_match self) (enumerate_from k fp))
    = group_positions re_match self fp.
Proof.
  unfold group_positions.
  induction fp as [|[regex p] fp IH]; intros k; [reflexivity|].
  cbn [enumerate_from filter map fst snd]. unfold matches_some at 1.
  cbn [fst snd].
  destruct (Nat.eqb (length (group_idx re_match self regex)) 0);
    cbn [negb map fst snd]; now rewrite IH.
Qed.

Hypothesis distinct_features : NoDup (feature_names self).

Lemma group_idx_positions (regex : string) :
  group_idx re_match self regex
  = filter (fun r => re_match regex (nth r (feature_names self) "")) (seq 0 (length (feature_names self))).
Proof.
  unfold group_idx, group_columns. now apply get_loc_positions.
Qed.


Lemma group_idx_bound (regex : string) (i : nat) :
  In i (group_idx re_match self regex) -> i < length (feature_names self).
Proof.
  rewrite group_idx_positions. intros Hin. apply filter_In in Hin.
  destruct Hin as [Hin _]. apply in_seq in Hin. lia.
Qed.

Lemma blocks_are_indicators (items : list (nat * (string * prior))) :
  map (fun it => group_block re_match self (fst (snd it)))
    (filter (matches_some re_match self) items)
  = map (indicator_rows (length (feature_names self)))
      (map (fun it => group_idx re_match self (fst (snd it)))
         (filter (matches_some re_match self) items)).
Proof.
  rewrite map_map. apply map_ext_in. intros it Hit.
  apply filter_In in Hit. destruct Hit as [_ Hne].
  unfold group_block. apply block_is_indicator.
  - unfold matches_some in Hne. intros E. rewrite E in Hne. discriminate.
  - apply group_idx_bound.
Qed.


End HeterogeneousPriors.

Section Coefficients.
Import numpyro props effects_py.

Lemma sample_parameters_run (self : LinearHeterogenousPriorsEffect)
    (ds : list (string * Distribution)) :
  forall h,
    sample_parameters self ds h
    = Ok (map (fun nd => column (flat (draw h (coefficient_site self (fst nd)) (snd nd)))) ds,
          mk_handler (draw h)
            (trace h ++ map (fun nd => coefficient_site self (fst nd)) ds)).
Proof.
  induction ds as [|[name d] ds IH]; intros h.
  - cbn [sample_parameters map]. rewrite app_nil_r. now destruct h.
  - cbn [sample_parameters]. unfold mbind, effects_py.sample.
    rewrite sample_run, IH. cbn [draw trace map fst snd ret].
    unfold ret, coefficient_site. now rewrite <- app_assoc.
Qed.





End Coefficients.

Section PlacementMatrix.
Import numpyro props effects_py.
Variable re_match : string -> string -> bool.

Lemma set_distributions_unfold (self : LinearHeterogenousPriorsEffect) :
  feature_names self <> [] ->
  set_distributions_and_permutation_matrix re_match self
  = Py.bind (priors_with_default re_match self)
      (fun fp => assemble re_match self (enumerate fp)).
Proof.
  intros Hne. unfold set_distributions_and_permutation_matrix.
  destruct (feature_names self); [contradiction | reflexivity].
Qed.

Lemma assemble_run (self : LinearHeterogenousPriorsEffect) (fp : dict prior) :
  NoDup (feature_names self) ->
  assemble re_match self (enumerate fp)
  = match group_positions re_match self fp with
    | [] => Raise (ValueError "Need at least one array to concatenate.")
    | _ :: _ =>
        Ok (assembled re_match self (enumerate fp)
              (group_positions re_match self fp))
    end.
Proof.
  intros Hnd. unfold assemble. rewrite loop_fold.
  cbn [matrices dists logged app].
  rewrite blocks_are_indicators by exact Hnd.
  unfold enumerate. rewrite enumerate_positions.
  destruct (group_positions re_match self fp) as [|g gs] eqn:Eg;
    [reflexivity|].
  rewrite concatenate_axis1_indicator by discriminate. reflexivity.
Qed.

Lemma assemble_ok (self self' : LinearHeterogenousPriorsEffect) (fp : dict prior) :
  NoDup (feature_names self) ->
  assemble re_match self (enumerate fp) = Ok self' ->
  group_positions re_match self fp <> [] /\
  self' = assembled re_match self (enumerate fp)
            (group_positions re_match self fp).
Proof.
  intros Hnd. rewrite assemble_run by exact Hnd.
  destruct (group_positions re_match self fp) as [|g gs];
    [discriminate|].
  intros Hok. injection Hok as <-. split; [discriminate | reflexivity].
Qed.





End PlacementMatrix.


(** ** Groups that match no feature *)

Section UnmatchedGroup.
Import numpyro props effects_py.
Variable re_match : string -> string -> bool.

Lemma str_of_nat_injective (a b : nat) : str_of_nat a = str_of_nat b -> a = b.
Proof.
  assert (Hnn : forall k, Nat.to_uint k <> Decimal.Nil).
  { intros k. rewrite <- (DecimalNat.Unsigned.of_to k) at 1.
    rewrite DecimalNat.Unsigned.to_of. apply DecimalFacts.unorm_nonnil. }
  unfold str_of_nat. intros Heq.
  apply (f_equal NilZero.uint_of_string) in Heq.
  rewrite !NilZero.usu in Heq by apply Hnn.
  injection Heq as Heq. now apply DecimalNat.Unsigned.to_uint_inj.
Qed.

Lemma append_injective (s a b : string) :
  (s ++ a)%string = (s ++ b)%string -> a = b.
Proof.
  induction s as [|c s IH]; cbn [String.append]; intros Heq;
    [exact Heq | injection Heq as Heq; auto].
Qed.

Lemma coefficient_name_injective (a b : nat) :
  coefficient_name a = coefficient_name b -> a = b.
Proof.
  unfold coefficient_name. intros Heq.
  now apply str_of_nat_injective, (append_injective _ _ _ Heq).
Qed.

Lemma enumerate_from_fst {A} (l : list A) :
  forall k, map fst (enumerate_from k l) = seq k (length l).
Proof.
  induction l as [|x l IH]; intros k; cbn [enumerate_from map length seq fst];
    [reflexivity | now rewrite IH].
Qed.

Lemma unmatched_group_idx (self : LinearHeterogenousPriorsEffect) (regex : string) :
  (forall c, In c (feature_names self) -> re_match regex c = false) ->
  group_idx re_match self regex = [].
Proof.
  intros Hnone. unfold group_idx, group_columns.
  replace (filter (re_match regex) (feature_names self)) with (@nil string);
    [reflexivity|].
  symmetry. induction (feature_names self) as [|c F IH]; [reflexivity|].
  cbn [filter]. rewrite Hnone by now left.
  apply IH. intros c' Hc'. apply Hnone. now right.
Qed.

Lemma get_coefficients_depends_on (s s' : LinearHeterogenousPriorsEffect) :
  lin_super s = lin_super s' ->
  exogenous_dists s = exogenous_dists s' ->
  exogenous_permutation_matrix s = exogenous_permutation_matrix s' ->
  forall h, get_coefficients s h = get_coefficients s' h.
Proof.
  intros Hsuper Hds HP h. unfold get_coefficients. rewrite Hds, HP.
  destruct (exogenous_dists s') as [ds|]; [|reflexivity].
  destruct (exogenous_permutation_matrix s') as [P|]; [|reflexivity].
  unfold mbind.
  replace (sample_parameters s ds h) with (sample_parameters s' ds h);
    [reflexivity|].
  rewrite !sample_parameters_run. unfold coefficient_site.
  now rewrite Hsuper.
Qed.

(** C10: a group of the prior dictionary whose pattern matches no
    feature name is passed over by the loop of
    [set_distributions_and_permutation_matrix]: its iteration only logs
    the warning; the initialization ends as it does with the group left
    out, with the same placement matrix, the same stored distributions
    (none of them under the name of the group) and so the same
    coefficients from [get_coefficients]; and it succeeds as soon as
    another group matches a feature. *)
Theorem unmatched_group_is_dropped_with_a_warning :
  forall (self : LinearHeterogenousPriorsEffect) (fp : dict prior)
         (items1 items2 : list (nat * (string * prior)))
         (i : nat) (regex : string) (p : prior),
    feature_names self <> [] ->
    priors_with_default re_match self = Ok fp ->
    enumerate fp = items1 ++ (i, (regex, p)) :: items2 ->
    (forall c, In c (feature_names self) -> re_match regex c = false) ->
    (forall st,
        loop_body re_match self st (i, (regex, p))
        = mk_loop_state (matrices st) (dists st)
            (logged st ++ [warning_no_match regex])) /\
    match set_distributions_and_permutation_matrix re_match self,
          assemble re_match self (items1 ++ items2) with
    | Ok s, Ok s' =>
        exogenous_permutation_matrix s = exogenous_permutation_matrix s' /\
        exogenous_dists s = exogenous_dists s' /\
        (forall h, get_coefficients s h = get_coefficients s' h) /\
        In (warning_no_match regex) (warnings s) /\
        (forall ds, exogenous_dists s = Some ds ->
                    ~ In (coefficient_name i) (map fst ds))
    | Raise e, Raise e' => e = e'
    | _, _ => False
    end /\
    (NoDup (feature_names self) ->
     (exists it, In it (items1 ++ items2) /\ matches_some re_match self it = true) ->
     exists s, set_distributions_and_permutation_matrix re_match self = Ok s).
Proof.
  intros self fp items1 items2 i regex p Hne Hfp Hsplit Hnone.
  pose proof (unmatched_group_idx self regex Hnone) as Hidx.
  assert (Hms : matches_some re_match self (i, (regex, p)) = false).
  { unfold matches_some. cbn [fst snd]. now rewrite Hidx. }
  split; [|split].
  - intros st. unfold loop_body. now rewrite Hidx.
  - rewrite set_distributions_unfold by exact Hne.
    rewrite Hfp. cbn [Py.bind]. rewrite Hsplit.
    unfold assemble. rewrite !loop_fold. cbn [matrices dists logged app].
    rewrite !filter_app. cbn [filter]. rewrite Hms. cbn [negb].
    rewrite <- !filter_app.
    destruct (concatenate_axis1 _) as [P|e]; [|reflexivity].
    cbn [Py.bind exogenous_permutation_matrix exogenous_dists warnings].
    split; [reflexivity|]. split; [reflexivity|].
    split; [now apply get_coefficients_depends_on|]. split.
    + apply in_or_app. right. rewrite map_app. apply in_or_app. right.
      now left.
    + intros ds Hds. injection Hds as <-. rewrite map_map. cbn [fst].
      intros Hin. apply in_map_iff in Hin. destruct Hin as [it [Hname Hit]].
      apply coefficient_name_injective in Hname.
      apply filter_In in Hit. destruct Hit as [Hit _].
      assert (Hnd : NoDup (map fst (enumerate fp))).
      { unfold enumerate. rewrite enumerate_from_fst. apply seq_NoDup. }
      rewrite Hsplit, map_app in Hnd. cbn [map fst] in Hnd.
      apply NoDup_remove_2 in Hnd. apply Hnd. rewrite <- map_app.
      rewrite <- Hname. now apply in_map.
  - intros Hnd [it [Hit Hsome]].
    rewrite set_distributions_unfold by exact Hne.
    rewrite Hfp. cbn [Py.bind]. rewrite assemble_run by exact Hnd.
    destruct (group_positions re_match self fp) as [|g gs] eqn:Eg;
      [|eexists; reflexivity].
    exfalso. unfold group_positions in Eg.
    assert (Hin : In (group_idx re_match self (fst (snd it)))
                    (filter (fun idx => negb (Nat.eqb (length idx) 0))
                       (map (fun item => group_idx re_match self (fst item)) fp))).
    { apply filter_In. split; [|exact Hsome].
      apply in_map_iff. exists (snd it). split; [reflexivity|].
      assert (Hit' : In it (enumerate fp)).
      { rewrite Hsplit. apply in_app_or in Hit. apply in_or_app.
        destruct Hit; [now left | right; now right]. }
      clear - Hit'. unfold enumerate in Hit'. revert Hit'.
      generalize 0. induction fp as [|x fp IH]; intros k Hin; [contradiction|].
      cbn [enumerate_from] in Hin. destruct Hin as [<-|Hin]; [now left|].
      right. now apply (IH (S k)). }
    rewrite Eg in Hin. contradiction.
Qed.

End UnmatchedGroup.

Lemma unmatched_group_is_dropped_with_a_warning_witness :
  let normal := effects_py.mk_prior "Normal" [0%R; 1%R] in
  let laplace := effects_py.mk_prior "Laplace" [0%R; 1%R] in
  let self :=
    effects_py.mk_LinearHeterogenousPriorsEffect
      (effects_py.mk_AbstractEffect "exog" None)
      [("holiday", laplace)] ["a"; "b"] normal "additive" None None [] in
  (forall st,
      effects_py.loop_body Re.re_match self st (0, ("holiday", laplace))
      = effects_py.mk_loop_state (effects_py.matrices st) (effects_py.dists st)
          (effects_py.logged st ++ [effects_py.warning_no_match "holiday"])) /\
  exists s,
    effects_py.set_distributions_and_permutation_matrix Re.re_match self = Ok s.
Proof.
  intros normal laplace self.
  destruct (unmatched_group_is_dropped_with_a_warning Re.re_match self
              [("holiday", laplace); ("a|b", normal)]
              [] [(1, ("a|b", normal))] 0 "holiday" laplace)
    as (Hbody & _ & Hok).
  - discriminate.
  - reflexivity.
  - reflexivity.
  - intros c [<-|[<-|[]]]; reflexivity.
  - split; [exact Hbody|]. apply Hok.
    + repeat constructor; simpl; intuition discriminate.
    + exists (1, ("a|b", normal)). split; [now left | reflexivity].
Defined.

(** ** Overlapping and catch-all groups *)

Section Overlap.
Import props effects_py.
Variable re_match : string -> string -> bool.

Lemma mem_In (x : string) (l : list string) : mem x l = true <-> In x l.
Proof.
  unfold mem. rewrite existsb_exists. split.
  - intros [y [Hy Heq]]. apply String.eqb_eq in Heq. now subst.
  - intros Hin. exists x. split; [exact Hin | apply String.eqb_refl].
Qed.

Lemma unique_In (x : string) (l : list string) : In x (unique l) <-> In x l.
Proof.
  induction l as [|y l IH]; [reflexivity|]. cbn [unique In].
  rewrite filter_In, IH. split.
  - intros [H|[H _]]; auto.
  - intros [H|H]; [now left|].
    destruct (String.eqb_spec y x) as [Heq|Hne]; [now left|].
    right. split; [exact H | reflexivity].
Qed.

Lemma unique_NoDup (l : list string) : NoDup (unique l).
Proof.
  induction l as [|x l IH]; cbn [unique]; constructor.
  - intros Hin. apply filter_In in Hin. destruct Hin as [_ Hne].
    now rewrite String.eqb_refl in Hne.
  - now apply NoDup_filter.
Qed.

Lemma intersection_In (s l : list string) (x : string) :
  In x (intersection s l) <-> In x s /\ In x l.
Proof.
  unfold intersection. rewrite unique_In, filter_In, mem_In. tauto.
Qed.

Lemma union_In (s l : list string) (x : string) :
  In x s \/ In x l -> In x (union s l).
Proof.
  unfold union. intros [H|H]; apply in_or_app; [now left|].
  destruct (mem x s) eqn:E; [left; now apply mem_In|].
  right. apply filter_In. split; [exact H | now rewrite E].
Qed.

Lemma union_inv (s l : list string) (x : string) :
  In x (union s l) -> In x s \/ In x l.
Proof.
  unfold union. intros H. apply in_app_or in H. destruct H as [H|H];
    [now left|]. apply filter_In in H. right. tauto.
Qed.

Lemma claim_columns_overlap (F : list string) (items : dict prior) :
  forall (claimed : string -> Prop) (already : list string),
    (forall c, In c already -> claimed c) ->
    (exists c, In c F /\
               ((In c already /\
                 exists item, In item items /\ re_match (fst item) c = true) \/
                matched_twice re_match items c)) ->
    exists cols,
      claim_columns re_match F items already = Raise (ColumnsAlreadySet cols) /\
      cols <> [] /\
      forall c', In c' cols ->
                 In c' F /\
                 ((claimed c' /\
                   exists item, In item items /\ re_match (fst item) c' = true) \/
                  matched_twice re_match items c').
Proof.
  induction items as [|[regex p] items IH]; intros claimed already Hinv Htrig.
  - exfalso. destruct Htrig as [c [_ [[_ [item [[] _]]]|Htwice]]].
    destruct Htwice as (l1 & x & l2 & y & l3 & Heq & _).
    destruct l1; discriminate.
  - cbn [claim_columns].
    destruct (intersection already (filter (re_match regex) F)) as [|c0 cs] eqn:Ei.
    + assert (Hdisjoint : forall c, In c already -> In c F ->
                                    re_match regex c = true -> False).
      { intros c Ha HF Hm.
        assert (Hin : In c (intersection already (filter (re_match regex) F))).
        { apply intersection_In. split; [exact Ha|]. now apply filter_In. }
        rewrite Ei in Hin. contradiction. }
      destruct (IH (fun c => claimed c \/ (In c F /\ re_match regex c = true))
                  (union already (filter (re_match regex) F)))
        as [cols [Hraise [Hne Hcols]]].
      * intros c Hc. apply union_inv in Hc. destruct Hc as [Hc|Hc];
          [left; now apply Hinv | right; now apply filter_In].
      * destruct Htrig as [c [HF [[Ha [item [[<-|Hitem] Hm]]]|Htwice]]].
        -- exfalso. now apply (Hdisjoint c).
        -- exists c. split; [exact HF|]. left. split.
           ++ apply union_In. now left.
           ++ now exists item.
        -- destruct Htwice as (l1 & x & l2 & y & l3 & Heq & Hx & Hy).
           destruct l1 as [|x0 l1]; cbn [app] in Heq; injection Heq as Hx0 Hrest.
           ++ subst x. cbn [fst] in Hx. exists c. split; [exact HF|]. left.
              split.
              ** apply union_In. right. now apply filter_In.
              ** exists y. split; [|exact Hy]. rewrite Hrest.
                 apply in_or_app. right. now left.
           ++ exists c. split; [exact HF|]. right.
              now exists l1, x, l2, y, l3.
      * exists cols. split; [exact Hraise|]. split; [exact Hne|].
        intros c' Hc'. destruct (Hcols c' Hc') as [HF Hcase].
        split; [exact HF|].
        destruct Hcase as [[[Hcl|[_ Hm]] [item [Hitem Hmi]]]|Htwice].
        -- left. split; [exact Hcl|]. exists item. split; [now right|exact Hmi].
        -- right. apply in_split in Hitem. destruct Hitem as (l2 & l3 & ->).
           exists [], (regex, p), l2, item, l3. now split.
        -- right. destruct Htwice as (l1 & x & l2 & y & l3 & -> & Hx & Hy).
           exists ((regex, p) :: l1), x, l2, y, l3. now split.
    + exists (c0 :: cs). split; [reflexivity|]. split; [discriminate|].
      intros c' Hc'. rewrite <- Ei in Hc'. apply intersection_In in Hc'.
      destruct Hc' as [Ha Hcol]. apply filter_In in Hcol.
      destruct Hcol as [HF Hm]. split; [exact HF|]. left.
      split; [now apply Hinv|]. exists (regex, p). split; [now left|exact Hm].
Qed.

(** The first half of C3 holds: when two entries of the prior dictionary
    match a common feature name, [features_with_default_priors] raises
    the error that carries the overlapping columns: a non-empty set of
    feature names, each matched by two entries. *)
Lemma overlapping_patterns_raise_naming_the_columns :
  forall (self : LinearHeterogenousPriorsEffect) (c : string),
    In c (feature_names self) ->
    matched_twice re_match (exogenous_priors self) c ->
    exists cols,
      features_with_default_priors re_match self = Raise (ColumnsAlreadySet cols) /\
      cols <> [] /\
      forall c', In c' cols ->
                 In c' (feature_names self) /\
                 matched_twice re_match (exogenous_priors self) c'.
Proof.
  intros self c HF Htwice.
  destruct (claim_columns_overlap (feature_names self) (exogenous_priors self)
              (fun _ => False) [])
    as [cols [Hraise [Hne Hcols]]].
  - intros c' [].
  - exists c. split; [exact HF | now right].
  - exists cols. unfold features_with_default_priors. rewrite Hraise.
    split; [reflexivity|]. split; [exact Hne|].
    intros c' Hc'. destruct (Hcols c' Hc') as [HF' [[[] _]|H2]].
    now split.
Qed.

End Overlap.

(** C3 fails on the catch-all group: with the features [x] and [xy] and
    the single pattern [xy], the groups given are column-disjoint, [x] is
    the only unmatched feature, and the catch-all pattern built for it,
    matched from the start of each name, takes [xy] as well: [xy]
    belongs to two groups and its row of the placement matrix holds two
    1s. *)
Theorem catch_all_pattern_reclaims_a_claimed_column :
  let normal := effects_py.mk_prior "Normal" [0%R; 1%R] in
  let laplace := effects_py.mk_prior "Laplace" [0%R; 1%R] in
  let self :=
    effects_py.mk_LinearHeterogenousPriorsEffect
      (effects_py.mk_AbstractEffect "exog" None)
      [("xy", laplace)] ["x"; "xy"] normal "additive" None None [] in
  effects_py.features_with_default_priors Re.re_match self = Ok "x" /\
  effects_py.priors_with_default Re.re_match self
  = Ok [("xy", laplace); ("x", normal)] /\
  effects_py.group_columns Re.re_match self "xy" = ["xy"] /\
  effects_py.group_columns Re.re_match self "x" = ["x"; "xy"] /\
  props.groups_matching Re.re_match [("xy", laplace); ("x", normal)] "xy" = 2 /\
  exists self',
    effects_py.set_distributions_and_permutation_matrix Re.re_match self
    = Ok self' /\
    effects_py.exogenous_permutation_matrix self'
    = Some [[0%R; 1%R; 0%R]; [1%R; 0%R; 1%R]] /\
    props.count_ones [1%R; 0%R; 1%R] = 2.
Proof.
  cbv zeta. repeat (split; [reflexivity|]).
  eexists. split; [reflexivity|]. split; [reflexivity|].
  change [1%R; 0%R; 1%R]
    with (map (fun i => if Nat.eqb i 1 then 1%R else 0%R) [1; 0; 1]).
  now rewrite count_ones_indicator.
Qed.

(* ================================================================== *)
(** * Further properties of the code                                  *)
(* ================================================================== *)

(** ** [initialize] and [prepare_input_data] *)

Section Initialization.
Variable re_match : string -> string -> bool.
Context {Self : Type} {E : base.Effect Self}.

(** Attribute assignment on the object reads back what was written. *)
Hypothesis super_set_super :
  forall (s : Self) (b : base.BaseEffect), base.super (base.set_super s b) = b.

Lemma initialize_run (self : Self) (X : base.DataFrame) (scale : R) :
  (forall s, base._initialize s X scale = Ok s) ->
  base.supports_multivariate = true \/ base.index_nlevels X <= 1 ->
  let selected :=
    match base.regex (base.super self) with
    | None => []
    | Some pattern => filter (re_match pattern) (base.columns X)
    end in
  exists self',
    base.initialize re_match self X scale = Ok self' /\
    base.super self'
    = base.mk_BaseEffect (base.id (base.super self))
        (base.regex (base.super self)) selected true.
Proof.
  intros Hhook Hflat selected. unfold base.initialize.
  replace (negb base.supports_multivariate && Nat.ltb 1 (base.index_nlevels X))
    with false.
  - unfold base.match_columns.
    assert (Hcols :
              match base.regex (base.super self) with
              | Some _ =>
                  match base.regex (base.super self) with
                  | Some pattern => Ok (filter (re_match pattern) (base.columns X))
                  | None => Raise (ValueError
                                     "To use this method, you must set the regex pattern")
                  end
              | None => Ok []
              end = Ok selected).
    { unfold selected. now destruct (base.regex (base.super self)). }
    rewrite Hcols. cbn [Py.bind]. rewrite Hhook. cbn [Py.bind].
    eexists. split; [reflexivity|].
    rewrite !super_set_super. reflexivity.
  - symmetry. destruct Hflat as [-> | Hle]; [reflexivity|].
    apply Bool.andb_false_iff. right. apply Nat.ltb_ge. exact Hle.
Qed.

Lemma filter_nothing (f : string -> bool) (l : list string) :
  (forall c, In c l -> f c = false) -> filter f l = [].
Proof.
  induction l as [|c l IH]; intros Hnone; [reflexivity|].
  cbn [filter]. rewrite Hnone by now left.
  apply IH. intros c' Hc'. apply Hnone. now right.
Qed.

(** X1: with the default [_initialize] hook, [initialize] on a table the
    effect accepts (a flat row index, or an effect that supports
    multivariate data) succeeds and leaves the effect initialized, its
    identity and pattern unchanged and its selected columns equal to the
    columns of that table that the pattern matches, in table order (none
    without a pattern), whatever it had selected before. *)
Theorem initialize_selects_the_matching_columns :
  forall (self : Self) (X : base.DataFrame) (scale : R),
    (forall s, base._initialize s X scale = Ok s) ->
    base.supports_multivariate = true \/ base.index_nlevels X <= 1 ->
    exists self',
      base.initialize re_match self X scale = Ok self' /\
      base._is_initialized (base.super self') = true /\
      base.id (base.super self') = base.id (base.super self) /\
      base.regex (base.super self') = base.regex (base.super self) /\
      base.input_feature_column_names self'
      = match base.regex (base.super self) with
        | None => []
        | Some pattern => filter (re_match pattern) (base.columns X)
        end.
Proof.
  intros self X scale Hhook Hflat.
  destruct (initialize_run self X scale Hhook Hflat) as [self' [Hinit Hsuper]].
  exists self'. split; [exact Hinit|].
  unfold base.input_feature_column_names. rewrite Hsuper.
  repeat split.
Qed.

(** X2: an effect that does not support multivariate data refuses a
    table whose row index has more than one level, with a [ValueError]
    that carries the effect's identity, before any column is matched and
    whatever the [_initialize] hook would do. *)
Theorem initialize_rejects_multivariate_data :
  forall (self : Self) (X : base.DataFrame) (scale : R),
    base.supports_multivariate = false ->
    1 < base.index_nlevels X ->
    base.initialize re_match self X scale
    = Raise (ValueError ("The effect of if " ++ base.id (base.super self)
                           ++ " does not support multivariate data")).
Proof.
  intros self X scale Hsupport Hlevels. unfold base.initialize.
  rewrite Hsupport. apply Nat.ltb_lt in Hlevels. rewrite Hlevels.
  reflexivity.
Qed.

(** X3: once an effect is initialized with the default hook and either
    has no pattern or a pattern that matches no column of the training
    table, and its class skips unmatched effects, [prepare_input_data]
    returns the empty bundle for every table and stage. *)
Theorem unmatched_effect_prepares_the_empty_bundle :
  forall (self : Self) (X_train X : base.DataFrame) (scale : R)
         (stage : base.Stage),
    (forall s, base._initialize s X_train scale = Ok s) ->
    base.supports_multivariate = true \/ base.index_nlevels X_train <= 1 ->
    base.skip_apply_if_no_match = true ->
    (forall pattern c, base.regex (base.super self) = Some pattern ->
                       In c (base.columns X_train) -> re_match pattern c = false) ->
    exists self',
      base.initialize re_match self X_train scale = Ok self' /\
      base.should_skip_apply self' = true /\
      base.prepare_input_data self' X stage = Ok [].
Proof.
  intros self X_train X scale stage Hhook Hflat Hskip Hnone.
  destruct (initialize_run self X_train scale Hhook Hflat) as [self' [Hinit Hsuper]].
  exists self'. split; [exact Hinit|].
  assert (Hsel : base._input_feature_column_names (base.super self') = []).
  { rewrite Hsuper. cbn [base._input_feature_column_names].
    destruct (base.regex (base.super self)) as [pattern|] eqn:Ere; [|reflexivity].
    apply filter_nothing. intros c Hc. now apply Hnone. }
  assert (Hshould : base.should_skip_apply self' = true).
  { unfold base.should_skip_apply. now rewrite Hsel. }
  split; [exact Hshould|].
  unfold base.prepare_input_data. rewrite Hshould.
  rewrite Hsuper. reflexivity.
Qed.

End Initialization.

Section Preparation.
Context {Self : Type} {E : base.Effect Self}.











End Preparation.

Lemma initialize_selects_the_matching_columns_witness :
  let self := log.LogEffect__init__ "promo" (Some "promo") "additive" None None in
  let X := base.mk_DataFrame ["promo_tv"; "price"; "promo_radio"] 1
             [[[1%R; 2%R; 3%R]]] in
  exists self',
    base.initialize Re.re_match self X 1 = Ok self' /\
    base._is_initialized (base.super self') = true /\
    base.input_feature_column_names self' = ["promo_tv"; "promo_radio"].
Proof.
  intros self X.
  destruct (initialize_selects_the_matching_columns Re.re_match
              (Self := log.LogEffect) (E := log.LogEffect_Effect) (fun s b => eq_refl) self X 1
              (fun s => eq_refl) (or_intror (le_n 1)))
    as [self' (Hinit & Hflag & _ & _ & Hcols)].
  exists self'. split; [exact Hinit|]. split; [exact Hflag | exact Hcols].
Defined.

Lemma initialize_rejects_multivariate_data_witness :
  let self := log.LogEffect__init__ "promo" (Some "promo") "additive" None None in
  let X := base.mk_DataFrame ["promo_tv"] 2 [[[1%R]]; [[2%R]]] in
  base.initialize Re.re_match self X 1
  = Raise (ValueError "The effect of if promo does not support multivariate data").
Proof.
  intros self X.
  apply (initialize_rejects_multivariate_data Re.re_match
           (Self := log.LogEffect) (E := log.LogEffect_Effect) self X 1 eq_refl (le_n 2)).
Defined.

Lemma unmatched_effect_prepares_the_empty_bundle_witness :
  let self := log.LogEffect__init__ "promo" (Some "promo") "additive" None None in
  let X_train := base.mk_DataFrame ["price"] 1 [[[1%R]]] in
  let X := base.mk_DataFrame ["promo_tv"] 1 [[[5%R]]] in
  exists self',
    base.initialize Re.re_match self X_train 1 = Ok self' /\
    base.should_skip_apply self' = true /\
    base.prepare_input_data self' X base.PREDICT = Ok [].
Proof.
  intros self X_train X.
  apply (unmatched_effect_prepares_the_empty_bundle Re.re_match
           (Self := log.LogEffect) (E := log.LogEffect_Effect) (fun s b => eq_refl) self X_train X 1
           base.PREDICT (fun s => eq_refl) (or_intror (le_n 1)) eq_refl).
  intros pattern c Hre [<-|[]]. injection Hre as <-. reflexivity.
Defined.



(** ** More on the Log effect of [log.py] *)

Section LogEffectMore.
Import numpyro props.

Lemma dict_pop_missing {V} (d : dict V) (k : string) :
  ~ In k (map fst d) -> dict_pop d k = Raise (KeyError k).
Proof.
  induction d as [|[k' v'] d IH]; intros Hnot; [reflexivity|].
  cbn [dict_pop]. destruct (String.eqb_spec k' k) as [->|_].
  - exfalso. apply Hnot. now left.
  - rewrite IH; [reflexivity|]. intros Hin. apply Hnot. now right.
Qed.

(** X6: the Log effect takes its data from the keyword argument [data]:
    when the bundle passed to [apply] has no entry of that name, [_apply]
    and [apply] raise [KeyError('data')], in either mode and whatever the
    handler supplies. *)
Theorem log_effect_requires_the_data_entry :
  forall (self : log.LogEffect) (trend : ndarray) (kwargs : dict ndarray)
         (h : handler),
    ~ In "data" (map fst kwargs) ->
    base._apply self trend kwargs h = Raise (KeyError "data") /\
    base.BaseAdditiveOrMultiplicativeEffect_apply self trend kwargs h
    = Raise (KeyError "data").
Proof.
  intros self trend kwargs h Hnot.
  assert (Hraw : base._apply self trend kwargs h = Raise (KeyError "data")).
  { cbn [base._apply log.LogEffect_Effect].
    unfold log.LogEffect_apply, mbind, lift.
    now rewrite (dict_pop_missing kwargs "data" Hnot). }
  split; [exact Hraw|].
  unfold base.BaseAdditiveOrMultiplicativeEffect_apply, mbind.
  now rewrite apply_is_hook, Hraw.
Qed.

Lemma ln_monotone (x y : R) : (0 < x)%R -> (x <= y)%R -> (ln x <= ln y)%R.
Proof.
  intros Hx [Hlt | ->]; [left; now apply ln_increasing | right; reflexivity].
Qed.

Lemma log_raw_zero (scale rate : R) : log_raw scale rate 0 = 0%R.
Proof.
  unfold log_raw. replace (rate * 0 + 1)%R with 1%R by lra.
  rewrite Rmax_left by lra. rewrite ln_1. lra.
Qed.

Lemma log_raw_monotone (scale rate d1 d2 : R) :
  (0 <= scale)%R -> (0 <= rate)%R -> (d1 <= d2)%R ->
  (log_raw scale rate d1 <= log_raw scale rate d2)%R.
Proof.
  intros Hs Hr Hd. unfold log_raw. apply Rmult_le_compat_l; [exact Hs|].
  apply ln_monotone; [apply clip_floor_positive|].
  apply Rle_max_compat_r. nra.
Qed.

Lemma log_raw_floor (scale rate d : R) :
  (rate * d + 1 <= 1e-8)%R -> log_raw scale rate d = (scale * ln 1e-8)%R.
Proof.
  intros Hd. unfold log_raw. now rewrite Rmax_right.
Qed.

Lemma nth_map_inside (f : R -> R) (l : list R) (i : nat) :
  i < length l -> nth i (map f l) 0%R = f (nth i l 0%R).
Proof.
  intros Hi. rewrite nth_indep with (d' := f 0%R) by (now rewrite length_map).
  apply map_nth.
Qed.

(** X7: with the data entry present and scalar draws, the Log effect
    declares exactly two sites, the scale and then the rate, both under
    the effect's identity, and its raw value has the shape of the data;
    it is 0 wherever the data is 0; for non-negative scale and rate it is
    monotone in the data; and wherever [rate * data + 1] is at or under
    the floor [1e-8] it is the constant [scale * log(1e-8)]. *)
Theorem log_effect_raw_value_zero_monotone_floored :
  forall (self : log.LogEffect) (trend data : ndarray)
         (kwargs rest : dict ndarray) (h : handler) (scale rate : R),
    let scale_site := (base.id (log.log_super self) ++ "__" ++ "log_scale")%string in
    let rate_site := (base.id (log.log_super self) ++ "__" ++ "log_rate")%string in
    dict_pop kwargs "data" = Ok (data, rest) ->
    well_formed data ->
    draw h scale_site (log.scale_prior self) = scalar scale ->
    draw h rate_site (log.rate_prior self) = scalar rate ->
    exists raw h',
      base._apply self trend kwargs h = Ok (raw, h') /\
      trace h' = trace h ++ [scale_site; rate_site] /\
      shape raw = shape data /\
      (forall i, i < length (flat data) ->
                 nth i (flat data) 0%R = 0%R -> nth i (flat raw) 0%R = 0%R) /\
      (forall i, i < length (flat data) ->
                 (rate * nth i (flat data) 0 + 1 <= 1e-8)%R ->
                 nth i (flat raw) 0%R = (scale * ln 1e-8)%R) /\
      ((0 <= scale)%R -> (0 <= rate)%R ->
       forall i j, i < length (flat data) -> j < length (flat data) ->
                   (nth i (flat data) 0 <= nth j (flat data) 0)%R ->
                   (nth i (flat raw) 0 <= nth j (flat raw) 0)%R).
Proof.
  intros self trend data kwargs rest h scale rate scale_site rate_site
    Hpop Hwf Hs Hr.
  pose proof (LogEffect_apply_run self trend data kwargs rest h scale rate
                Hpop Hwf Hs Hr) as Hrun.
  eexists _, _. split; [exact Hrun|]. cbn [trace shape flat map_elems].
  split; [reflexivity|]. split; [reflexivity|]. split; [|split].
  - intros i Hi Hzero. rewrite nth_map_inside by exact Hi.
    rewrite Hzero. apply log_raw_zero.
  - intros i Hi Hfloor. rewrite nth_map_inside by exact Hi.
    now apply log_raw_floor.
  - intros Hscale Hrate i j Hi Hj Hle. rewrite !nth_map_inside by assumption.
    now apply log_raw_monotone.
Qed.

End LogEffectMore.

Lemma log_effect_requires_the_data_entry_witness :
  let self := log.LogEffect__init__ "promo" None "multiplicative" None None in
  let h := numpyro.mk_handler (fun _ _ => scalar 1) [] in
  let kwargs := [("spend", array1 [1%R])] in
  base._apply self (array1 [1%R]) kwargs h = Raise (KeyError "data") /\
  base.BaseAdditiveOrMultiplicativeEffect_apply self (array1 [1%R]) kwargs h
  = Raise (KeyError "data").
Proof.
  intros self h kwargs.
  apply (log_effect_requires_the_data_entry self (array1 [1%R]) kwargs h).
  simpl. intuition discriminate.
Defined.

Lemma log_effect_raw_value_zero_monotone_floored_witness :
  let self := log.LogEffect__init__ "promo" None "additive" None None in
  let data := array1 [0%R; (-2)%R; 3%R] in
  let h := props.scenario_handler
             [("promo__log_scale", 2%R); ("promo__log_rate", 1%R)] 0 in
  exists raw h',
    base._apply self (array1 [1%R; 1%R; 1%R]) [("data", data)] h = Ok (raw, h') /\
    numpyro.trace h' = ["promo__log_scale"; "promo__log_rate"] /\
    nth 0 (flat raw) 0%R = 0%R /\
    nth 1 (flat raw) 0%R = (2 * ln 1e-8)%R /\
    (nth 1 (flat raw) 0 <= nth 2 (flat raw) 0)%R.
Proof.
  intros self data h.
  destruct (log_effect_raw_value_zero_monotone_floored self
              (array1 [1%R; 1%R; 1%R]) data [("data", data)] [] h 2 1
              eq_refl eq_refl eq_refl eq_refl)
    as (raw & h' & Hrun & Htrace & _ & Hzero & Hfloor & Hmono).
  exists raw, h'. split; [exact Hrun|]. split; [exact Htrace|].
  split; [apply Hzero; [simpl; lia | reflexivity]|].
  split; [apply Hfloor; [simpl; lia | simpl; lra]|].
  apply Hmono; [lra | lra | simpl; lia | simpl; lia | simpl; lra].
Defined.

(** ** The saturation curve of the Hill effect of [effects.py] *)

Section HillCurve.
Import numpyro props.

Lemma Rpower_one (p : R) : Rpower 1 p = 1%R.
Proof. unfold Rpower. now rewrite ln_1, Rmult_0_r, exp_0. Qed.

Lemma Rpower_positive (x p : R) : (0 < Rpower x p)%R.
Proof. unfold Rpower. apply exp_pos. Qed.

Lemma hill_raw_at_half_max (half_max slope max_effect : R) :
  half_max <> 0%R ->
  hill_raw Rpower half_max slope max_effect half_max = (max_effect / 2)%R.
Proof.
  intros Hh. unfold hill_raw.
  replace (half_max / half_max)%R with 1%R by (now field).
  rewrite Rpower_one. lra.
Qed.

Lemma hill_raw_bounds (half_max slope max_effect d : R) :
  (0 <= max_effect)%R ->
  (0 <= hill_raw Rpower half_max slope max_effect d <= max_effect)%R.
Proof.
  intros Hm. unfold hill_raw.
  pose proof (Rpower_positive (d / half_max) (- slope)) as Hp.
  set (p := Rpower (d / half_max) (- slope)) in *.
  assert (Hinv : (0 < / (1 + p))%R) by (apply Rinv_0_lt_compat; lra).
  split.
  - unfold Rdiv. apply Rmult_le_pos; lra.
  - apply Rmult_le_reg_r with (r := (1 + p)%R); [lra|].
    unfold Rdiv. rewrite Rmult_assoc, Rinv_l by lra. nra.
Qed.

Lemma hill_raw_monotone (half_max slope max_effect d1 d2 : R) :
  (0 < half_max)%R -> (0 <= slope)%R -> (0 <= max_effect)%R ->
  (0 < d1)%R -> (d1 <= d2)%R ->
  (hill_raw Rpower half_max slope max_effect d1
   <= hill_raw Rpower half_max slope max_effect d2)%R.
Proof.
  intros Hh Hs Hm Hd1 Hd. unfold hill_raw. rewrite !Rpower_Ropp.
  assert (Hr1 : (0 < d1 / half_max)%R) by (now apply Rdiv_lt_0_compat).
  assert (Hr : (d1 / half_max <= d2 / half_max)%R).
  { unfold Rdiv. apply Rmult_le_compat_r; [|exact Hd].
    left. now apply Rinv_0_lt_compat. }
  pose proof (Rle_Rpower_l (d1 / half_max) (d2 / half_max) slope Hs
                (conj Hr1 Hr)) as Hpow.
  pose proof (Rpower_positive (d1 / half_max) slope) as Hp1.
  pose proof (Rpower_positive (d2 / half_max) slope) as Hp2.
  set (a1 := Rpower (d1 / half_max) slope) in *.
  set (a2 := Rpower (d2 / half_max) slope) in *.
  assert (Hinv : (/ a2 <= / a1)%R) by (now apply Rinv_le_contravar).
  assert (Hi2 : (0 < / a2)%R) by (now apply Rinv_0_lt_compat).
  unfold Rdiv. apply Rmult_le_compat_l; [exact Hm|].
  apply Rinv_le_contravar; lra.
Qed.

(** X8: in additive mode, with scalar draws, a positive [half_max] and
    positive data, the Hill effect of [effects.py] has the shape of the
    data and follows the saturation curve: where the data equals
    [half_max] the effect is half of [max_effect]; for a non-negative
    [max_effect] every value lies between 0 and [max_effect], the bounds
    included; and for non-negative [slope] and [max_effect] it is
    monotone in the data. *)
Theorem legacy_hill_effect_saturates :
  forall (self : effects_py.HillEffect) (trend data : ndarray) (h : handler)
         (half_max slope max_effect : R),
    let name := effects_py.id (effects_py.hill_super self) in
    effects_py.hill_effect_mode self = "additive" ->
    well_formed data ->
    draw h (name ++ "__" ++ "half_max")%string (effects_py.half_max_prior self)
    = scalar half_max ->
    draw h (name ++ "__" ++ "slope")%string (effects_py.slope_prior self)
    = scalar slope ->
    draw h (name ++ "__" ++ "max_effect")%string (effects_py.max_effect_prior self)
    = scalar max_effect ->
    (0 < half_max)%R ->
    Forall (fun d => (0 < d)%R) (flat data) ->
    exists effect h',
      effects_py.HillEffect_compute_effect self trend data h = Ok (effect, h') /\
      shape effect = shape data /\
      (forall i, i < length (flat data) ->
                 nth i (flat data) 0%R = half_max ->
                 nth i (flat effect) 0%R = (max_effect / 2)%R) /\
      ((0 <= max_effect)%R ->
       forall i, i < length (flat data) ->
                 (0 <= nth i (flat effect) 0 <= max_effect)%R) /\
      ((0 <= slope)%R -> (0 <= max_effect)%R ->
       forall i j, i < length (flat data) -> j < length (flat data) ->
                   (nth i (flat data) 0 <= nth j (flat data) 0)%R ->
                   (nth i (flat effect) 0 <= nth j (flat effect) 0)%R).
Proof.
  intros self trend data h half_max slope max_effect name
    Hmode Hwf Hh Hs Hm Hpos Hdata.
  assert (Hratio : Forall (fun d => (0 < d / half_max)%R) (flat data)).
  { eapply Forall_impl; [|exact Hdata]. intros d Hd.
    now apply Rdiv_lt_0_compat. }
  destruct (legacy_hill_effect_on_positive_data self trend data h half_max
              slope max_effect Hmode Hwf Hh Hs Hm Hratio) as [h' Hrun].
  eexists _, h'. split; [exact Hrun|]. cbn [shape flat map_elems].
  split; [reflexivity|]. split; [|split].
  - intros i Hi Heq. rewrite nth_map_inside by exact Hi. rewrite Heq.
    apply hill_raw_at_half_max. lra.
  - intros Hme i Hi. rewrite nth_map_inside by exact Hi.
    now apply hill_raw_bounds.
  - intros Hslope Hme i j Hi Hj Hle. rewrite !nth_map_inside by assumption.
    apply hill_raw_monotone; try assumption.
    rewrite Forall_forall in Hdata. apply Hdata. now apply nth_In.
Qed.

End HillCurve.

Lemma legacy_hill_effect_saturates_witness :
  let self :=
    effects_py.mk_HillEffect (effects_py.mk_AbstractEffect "hill" None)
      (numpyro.Gamma 1 1) (numpyro.HalfNormal 10) (numpyro.Gamma 1 1)
      "additive" in
  let data := array1 [2%R; 5%R] in
  let h := props.scenario_handler
             [("hill__half_max", 2%R); ("hill__slope", 1%R);
              ("hill__max_effect", 10%R)] 0 in
  exists effect h',
    effects_py.HillEffect_compute_effect self (array1 [1%R; 1%R]) data h
    = Ok (effect, h') /\
    nth 0 (flat effect) 0%R = (10 / 2)%R /\
    (0 <= nth 1 (flat effect) 0 <= 10)%R /\
    (nth 0 (flat effect) 0 <= nth 1 (flat effect) 0)%R.
Proof.
  intros self data h.
  destruct (legacy_hill_effect_saturates self (array1 [1%R; 1%R]) data h
              2 1 10 eq_refl eq_refl eq_refl eq_refl eq_refl)
    as (effect & h' & Hrun & _ & Hhalf & Hbound & Hmono).
  - lra.
  - repeat constructor; lra.
  - exists effect, h'. split; [exact Hrun|].
    split; [apply Hhalf; [simpl; lia | reflexivity]|].
    split; [apply Hbound; [lra | simpl; lia]|].
    apply Hmono; [lra | lra | simpl; lia | simpl; lia | simpl; lra].
Defined.

(** ** Additive and multiplicative application *)

Section Application.

(** X9: in both files the multiplicative application is the trend
    multiplied by the additive application of the same data and
    coefficients, and it fails exactly as the additive application does
    when that one fails. *)
Theorem multiplicative_effect_is_trend_times_additive_effect :
  forall (trend data coefficients : ndarray),
    effect_apply.multiplicative_effect trend data coefficients
    = Py.bind (effect_apply.additive_effect data coefficients) (multiply trend) /\
    effects_py.multiplicative_effect trend data coefficients
    = Py.bind (effects_py.additive_effect trend data coefficients)
        (multiply trend).
Proof.
  intros trend data coefficients. split; [|reflexivity].
  unfold effect_apply.multiplicative_effect, effect_apply.additive_effect.
  destruct (shape_at data 1) as [d1|e]; [|reflexivity].
  destruct (shape_at coefficients 0) as [c0|e]; [|reflexivity].
  cbn [Py.bind]. destruct (negb (Nat.eqb d1 c0)); reflexivity.
Qed.

(** X10: the guard of [effect_apply.py] reads [data.shape[1]] and
    [coefficients.shape[0]]: data of rank below two, and coefficients of
    rank zero, make both functions raise [IndexError] rather than the
    dimension-mismatch error, whatever the extents. *)
Theorem dimension_guard_index_error_on_low_rank :
  forall (trend data coefficients : ndarray),
    ndim data < 2 \/ ndim coefficients = 0 ->
    effect_apply.additive_effect data coefficients
    = Raise (IndexError "tuple index out of range") /\
    effect_apply.multiplicative_effect trend data coefficients
    = Raise (IndexError "tuple index out of range").
Proof.
  intros trend data coefficients Hrank.
  unfold effect_apply.additive_effect, effect_apply.multiplicative_effect,
    shape_at, ndim in *.
  destruct Hrank as [Hdata | Hcoef].
  - destruct (shape data) as [|d0 [|d1 s]]; [now split | now split|].
    simpl in Hdata. lia.
  - destruct (shape coefficients) as [|c0 s]; [|discriminate].
    destruct (nth_error (shape data) 1); split; reflexivity.
Qed.

(** X11: the additive application of [effects.py] has no guard: it
    contracts the trailing axis of the data with all the elements of the
    coefficients, whatever their shape.  When the trailing extent equals
    the number of coefficients, the result keeps the leading axes of the
    data with a last axis of extent 1 and each of its elements is the
    product of one row of the data with the coefficients; otherwise the
    matrix product raises. *)
Theorem legacy_additive_effect_contracts_the_trailing_axis :
  forall (trend data coefficients : ndarray) (lead : list nat) (n : nat),
    shape data = lead ++ [n] ->
    (length (flat coefficients) = n ->
     exists product,
       effects_py.additive_effect trend data coefficients = Ok product /\
       shape product = match lead with [] => [1] | _ :: _ => lead ++ [1] end /\
       length (flat product) = size_of lead /\
       forall i, i < size_of lead ->
                 nth i (flat product) 0%R
                 = dot (firstn n (skipn (i * n) (flat data))) (flat coefficients)) /\
    (length (flat coefficients) <> n ->
     exists msg,
       effects_py.additive_effect trend data coefficients = Raise (TypeError msg)).
Proof.
  intros trend data coefficients lead n Hshape. split.
  - intros Hlen.
    unfold effects_py.additive_effect, effects_py.matrix_multiplication.
    rewrite (matmul_column_run data (reshape_column coefficients) lead n Hshape)
      by exact Hlen.
    eexists. split; [reflexivity|]. cbn [shape flat reshape_column].
    split; [reflexivity|]. split.
    + now rewrite length_map, chunks_length.
    + intros i Hi.
      rewrite nth_indep with (d' := dot [] (flat coefficients))
        by (now rewrite length_map, chunks_length).
      rewrite (map_nth (fun r => dot r (flat coefficients))).
      now rewrite chunks_nth.
  - intros Hlen. eexists.
    unfold effects_py.additive_effect, effects_py.matrix_multiplication.
    now rewrite (matmul_column_mismatch data (reshape_column coefficients) lead n).
Qed.

End Application.

Lemma dimension_guard_index_error_on_low_rank_witness :
  let data := array1 [1%R; 2%R] in
  let coefficients := array1 [1%R; 1%R] in
  effect_apply.additive_effect data coefficients
  = Raise (IndexError "tuple index out of range") /\
  effect_apply.multiplicative_effect (array1 [1%R]) data coefficients
  = Raise (IndexError "tuple index out of range").
Proof.
  intros data coefficients.
  apply (dimension_guard_index_error_on_low_rank (array1 [1%R]) data coefficients).
  left. unfold ndim. simpl. lia.
Defined.

Lemma legacy_additive_effect_contracts_the_trailing_axis_witness :
  let data := mk_ndarray [3; 2] [1%R; 0%R; 0%R; 1%R; 1%R; 1%R] in
  let coefficients := array1 [1%R; 1%R] in
  exists product,
    effects_py.additive_effect (array1 [1%R]) data coefficients = Ok product /\
    shape product = [3; 1] /\
    nth 2 (flat product) 0%R = dot [1%R; 1%R] [1%R; 1%R].
Proof.
  intros data coefficients.
  destruct (legacy_additive_effect_contracts_the_trailing_axis
              (array1 [1%R]) data coefficients [3] 2 eq_refl)
    as [Hok _].
  destruct (Hok eq_refl) as (product & Hrun & Hshape & _ & Hnth).
  exists product. split; [exact Hrun|]. split; [exact Hshape|].
  apply (Hnth 2). simpl. lia.
Defined.

(** ** The Linear effect of [effects.py] *)

Section LinearEffect.
Import numpyro.

(** X12: the Linear effect of [effects.py] declares one site, [coefs]
    under its identity, with one copy of each prior argument per feature
    (the trailing extent of the data).  With a one-dimensional draw of
    that length, the rows of the data (of any rank) are multiplied with
    the coefficients: the effect keeps the leading axes with a last axis
    of extent 1; the mode [multiplicative] multiplies it by the trend and
    every other mode returns it as it is. *)
Theorem legacy_linear_effect_is_a_linear_predictor :
  forall (self : effects_py.LinearEffect) (trend data : ndarray) (h : handler)
         (lead : list nat) (n : nat) (coefs : list R),
    let site := (effects_py.id (effects_py.linear_super self) ++ "__" ++ "coefs")%string in
    let prior_dist :=
      mk_dist (effects_py.dist_class (effects_py.linear_prior self))
        (map (fun arg => full_of n arg)
           (effects_py.dist_args (effects_py.linear_prior self))) in
    let product :=
      mk_ndarray (match lead with [] => [1] | _ :: _ => lead ++ [1] end)
        (map (fun row => dot row coefs) (chunks (size_of lead) n (flat data))) in
    shape data = lead ++ [n] ->
    draw h site prior_dist = array1 coefs ->
    length coefs = n ->
    exists h',
      trace h' = trace h ++ [site] /\
      (forall i, i < size_of lead ->
                 nth i (flat product) 0%R
                 = dot (firstn n (skipn (i * n) (flat data))) coefs) /\
      (effects_py.linear_effect_mode self <> "multiplicative" ->
       effects_py.LinearEffect_compute_effect self trend data h
       = Ok (product, h')) /\
      (effects_py.linear_effect_mode self = "multiplicative" ->
       effects_py.LinearEffect_compute_effect self trend data h
       = match multiply trend product with
         | Ok effect => Ok (effect, h')
         | Raise e => Raise e
         end).
Proof.
  intros self trend data h lead n coefs site prior_dist product
    Hshape Hdraw Hlen.
  exists (mk_handler (draw h) (trace h ++ [site])).
  split; [reflexivity|]. split.
  - intros i Hi. unfold product. cbn [flat].
    rewrite nth_indep with (d' := dot [] coefs)
      by (now rewrite length_map, chunks_length).
    rewrite (map_nth (fun r => dot r coefs)). now rewrite chunks_nth.
  - assert (Hlast : shape_last data = Ok n).
    { unfold shape_last. rewrite Hshape, rev_app_distr. reflexivity. }
    assert (Hmm : forall c, flat c = coefs ->
                            effects_py.matrix_multiplication data c = Ok product).
    { intros c Hc. unfold effects_py.matrix_multiplication.
      rewrite (matmul_column_run data (reshape_column c) lead n Hshape)
        by (cbn [flat reshape_column]; now rewrite Hc).
      cbn [flat reshape_column]. now rewrite Hc. }
    assert (Hflat : forall c : ndarray,
               flat (if Nat.eqb (ndim data) 3
                        && Nat.eqb (ndim (expand_dims_last (array1 coefs))) 2
                     then expand_dims_first (expand_dims_last (array1 coefs))
                     else expand_dims_last (array1 coefs)) = coefs).
    { intros _. destruct (Nat.eqb (ndim data) 3 && _); reflexivity. }
    split.
    + intros Hmode. apply String.eqb_neq in Hmode.
      unfold effects_py.LinearEffect_compute_effect, mbind, lift.
      rewrite Hlast. unfold effects_py.sample. rewrite sample_run.
      cbn [draw trace]. fold site prior_dist. rewrite Hdraw, Hmode.
      cbn [ndim array1 shape length Nat.eqb]. cbv zeta.
      unfold effects_py.additive_effect. rewrite Hmm; [reflexivity|].
      apply (Hflat data).
    + intros Hmode.
      unfold effects_py.LinearEffect_compute_effect, mbind, lift.
      rewrite Hlast. unfold effects_py.sample. rewrite sample_run.
      cbn [draw trace]. fold site prior_dist. rewrite Hdraw, Hmode.
      rewrite String.eqb_refl.
      cbn [ndim array1 shape length Nat.eqb]. cbv zeta.
      unfold effects_py.multiplicative_effect. rewrite Hmm; [reflexivity|].
      apply (Hflat data).
Qed.

End LinearEffect.

Lemma legacy_linear_effect_is_a_linear_predictor_witness :
  let self :=
    effects_py.mk_LinearEffect (effects_py.mk_AbstractEffect "x" None)
      (effects_py.mk_prior "Normal" [0%R; 1%R]) "additive" in
  let data := mk_ndarray [3; 2] [1%R; 0%R; 0%R; 1%R; 1%R; 1%R] in
  let h := numpyro.mk_handler (fun _ _ => array1 [1%R; 1%R]) [] in
  exists h',
    numpyro.trace h' = ["x__coefs"] /\
    effects_py.LinearEffect_compute_effect self (array1 [1%R]) data h
    = Ok (mk_ndarray [3; 1]
            (map (fun row => dot row [1%R; 1%R])
               [[1%R; 0%R]; [0%R; 1%R]; [1%R; 1%R]]), h').
Proof.
  intros self data h.
  destruct (legacy_linear_effect_is_a_linear_predictor self (array1 [1%R]) data h
              [3] 2 [1%R; 1%R] eq_refl eq_refl eq_refl)
    as (h' & Htrace & _ & Hadd & _).
  exists h'. split; [exact Htrace|]. apply Hadd. discriminate.
Defined.

(** ** The groups of the heterogeneous-prior effect *)

(** X13: when two entries of the prior dictionary match a common feature
    name, [features_with_default_priors] raises the [ValueError] that
    carries the columns already set: a non-empty set of feature names,
    each of them matched by two entries. *)
Theorem overlapping_patterns_are_rejected_with_their_columns :
  forall (re_match : string -> string -> bool)
         (self : effects_py.LinearHeterogenousPriorsEffect) (c : string),
    In c (effects_py.feature_names self) ->
    props.matched_twice re_match (effects_py.exogenous_priors self) c ->
    exists cols,
      effects_py.features_with_default_priors re_match self
      = Raise (ColumnsAlreadySet cols) /\
      cols <> [] /\
      forall c', In c' cols ->
                 In c' (effects_py.feature_names self) /\
                 props.matched_twice re_match (effects_py.exogenous_priors self) c'.
Proof.
  intros re_match self c. apply overlapping_patterns_raise_naming_the_columns.
Qed.

Lemma overlapping_patterns_are_rejected_with_their_columns_witness :
  let laplace := effects_py.mk_prior "Laplace" [0%R; 1%R] in
  let normal := effects_py.mk_prior "Normal" [0%R; 1%R] in
  let self :=
    effects_py.mk_LinearHeterogenousPriorsEffect
      (effects_py.mk_AbstractEffect "exog" None)
      [("promo", laplace); ("promo_tv", normal)] ["price"; "promo_tv"] normal
      "additive" None None [] in
  exists cols,
    effects_py.features_with_default_priors Re.re_match self
    = Raise (ColumnsAlreadySet cols) /\
    cols <> [] /\
    forall c', In c' cols ->
               In c' (effects_py.feature_names self) /\
               props.matched_twice Re.re_match (effects_py.exogenous_priors self) c'.
Proof.
  intros laplace normal self.
  apply (overlapping_patterns_are_rejected_with_their_columns
           Re.re_match self "promo_tv").
  - simpl. auto.
  - exists [], ("promo", laplace), [], ("promo_tv", normal), [].
    repeat split.
Defined.

Section DisjointGroups.
Import props effects_py.
Variable re_match : string -> string -> bool.

Lemma matched_twice_tail (x : string * prior) (items : dict prior) (c : string) :
  matched_twice re_match items c -> matched_twice re_match (x :: items) c.
Proof.
  intros (l1 & a & l2 & b & l3 & -> & Ha & Hb).
  now exists (x :: l1), a, l2, b, l3.
Qed.

Lemma claim_columns_disjoint (F : list string) (items : dict prior) :
  forall already,
    (forall c, In c F -> ~ matched_twice re_match items c) ->
    (forall c item, In c already -> In c F -> In item items ->
                    re_match (fst item) c = false) ->
    exists claimed,
      claim_columns re_match F items already = Ok claimed /\
      forall c, In c claimed <->
                In c already \/
                (In c F /\ exists item, In item items /\ re_match (fst item) c = true).
Proof.
  induction items as [|[regex p] items IH]; intros already Hno Hfresh.
  - exists already. split; [reflexivity|]. intros c. split; [now left|].
    intros [H|[_ [item [[] _]]]]. exact H.
  - cbn [claim_columns].
    destruct (intersection already (filter (re_match regex) F)) as [|c0 cs] eqn:Ei.
    + destruct (IH (union already (filter (re_match regex) F)))
        as [claimed [Hrun Hclaimed]].
      * intros c HF Htwice. apply (Hno c HF). now apply matched_twice_tail.
      * intros c item Hc HF Hitem.
        apply (union_inv re_match) in Hc. destruct Hc as [Hc|Hc].
        -- apply (Hfresh c item Hc HF). now right.
        -- apply filter_In in Hc. destruct Hc as [_ Hm].
           destruct (re_match (fst item) c) eqn:Hitem_m; [|reflexivity].
           exfalso. apply (Hno c HF).
           apply in_split in Hitem. destruct Hitem as (l2 & l3 & ->).
           now exists [], (regex, p), l2, item, l3.
      * exists claimed. split; [exact Hrun|]. intros c.
        rewrite Hclaimed. split.
        -- intros [Hc|[HF [item [Hitem Hm]]]].
           ++ apply (union_inv re_match) in Hc. destruct Hc as [Hc|Hc]; [now left|].
              apply filter_In in Hc. right. split; [tauto|].
              exists (regex, p). split; [now left | tauto].
           ++ right. split; [exact HF|]. exists item. split; [now right|exact Hm].
        -- intros [Hc|[HF [item [[<-|Hitem] Hm]]]].
           ++ left. apply union_In. now left.
           ++ left. apply union_In. right. now apply filter_In.
           ++ right. split; [exact HF|]. now exists item.
    + exfalso.
      assert (Hin : In c0 (intersection already (filter (re_match regex) F))).
      { rewrite Ei. now left. }
      apply (intersection_In re_match) in Hin. destruct Hin as [Ha Hcol].
      apply filter_In in Hcol. destruct Hcol as [HF Hm].
      pose proof (Hfresh c0 (regex, p) Ha HF (or_introl eq_refl)) as Hf.
      cbn [fst] in Hf. congruence.
Qed.

Lemma insert_sorted_In (x y : string) (l : list string) :
  In y (insert_sorted x l) <-> y = x \/ In y l.
Proof.
  induction l as [|z l IH]; cbn [insert_sorted].
  - simpl. intuition.
  - destruct (String.leb x z); cbn [In]; [intuition|].
    rewrite IH. intuition.
Qed.

Lemma insert_sorted_NoDup (x : string) (l : list string) :
  ~ In x l -> NoDup l -> NoDup (insert_sorted x l).
Proof.
  induction l as [|z l IH]; intros Hx Hnd; cbn [insert_sorted].
  - constructor; [intros [] | constructor].
  - destruct (String.leb x z); [now constructor|].
    inversion Hnd as [|? ? Hz Hl]; subst. constructor.
    + rewrite insert_sorted_In. intros [->|Hin]; [|contradiction].
      apply Hx. now left.
    + apply IH; [|exact Hl]. intros Hin. apply Hx. now right.
Qed.

Lemma sorted_In (y : string) (l : list string) : In y (sorted l) <-> In y l.
Proof.
  unfold sorted. induction l as [|x l IH]; cbn [fold_right]; [reflexivity|].
  rewrite insert_sorted_In, IH. simpl. intuition.
Qed.

Lemma sorted_NoDup (l : list string) : NoDup l -> NoDup (sorted l).
Proof.
  unfold sorted. induction 1 as [|x l Hx Hl IH]; cbn [fold_right];
    [constructor|].
  apply insert_sorted_NoDup; [|exact IH].
  fold (sorted l). now rewrite sorted_In.
Qed.

Lemma index_difference_spec (index s : list string) :
  NoDup (index_difference index s) /\
  forall c, In c (index_difference index s) <-> In c index /\ ~ In c s.
Proof.
  unfold index_difference. destruct s as [|x s].
  - split; [apply unique_NoDup|].
    intros c. rewrite unique_In. cbn [In]. tauto.
  - split; [apply sorted_NoDup, unique_NoDup|].
    intros c. rewrite sorted_In, unique_In, filter_In.
    rewrite Bool.negb_true_iff. rewrite <- Bool.not_true_iff_false, mem_In.
    reflexivity.
Qed.

Lemma features_with_default_priors_run (self : LinearHeterogenousPriorsEffect) :
  (forall c, In c (feature_names self) ->
             ~ matched_twice re_match (exogenous_priors self) c) ->
  exists remaining,
    features_with_default_priors re_match self
    = Ok (String.concat "|" remaining) /\
    NoDup remaining /\
    forall c, In c remaining <->
              In c (feature_names self) /\
              forall item, In item (exogenous_priors self) ->
                           re_match (fst item) c = false.
Proof.
  intros Hno.
  destruct (claim_columns_disjoint (feature_names self) (exogenous_priors self)
              [] Hno) as [claimed [Hrun Hclaimed]].
  { intros c item []. }
  unfold features_with_default_priors. rewrite Hrun. cbn [Py.bind].
  eexists. split; [reflexivity|].
  destruct (index_difference_spec (feature_names self) claimed) as [Hnd Hin].
  split; [exact Hnd|]. intros c. rewrite Hin, Hclaimed. split.
  - intros [HF Hnot]. split; [exact HF|]. intros item Hitem.
    destruct (re_match (fst item) c) eqn:Hm; [|reflexivity].
    exfalso. apply Hnot. right. split; [exact HF|]. now exists item.
  - intros [HF Hnone]. split; [exact HF|].
    intros [[]|[_ [item [Hitem Hm]]]]. rewrite (Hnone item Hitem) in Hm.
    discriminate.
Qed.

(** X14: when no feature name is matched by two entries of the prior
    dictionary, [features_with_default_priors] does not raise: it returns
    the names joined by bars of exactly the features that no entry
    matches, each once. *)
Theorem disjoint_patterns_leave_the_unmatched_features :
  forall self : LinearHeterogenousPriorsEffect,
    (forall c, In c (feature_names self) ->
               ~ matched_twice re_match (exogenous_priors self) c) ->
    exists remaining,
      features_with_default_priors re_match self
      = Ok (String.concat "|" remaining) /\
      NoDup remaining /\
      forall c, In c remaining <->
                In c (feature_names self) /\
                forall item, In item (exogenous_priors self) ->
                             re_match (fst item) c = false.
Proof. exact features_with_default_priors_run. Qed.

Lemma dict_set_new {V} (d : dict V) (k : string) (v : V) :
  ~ In k (map fst d) -> dict_set d k v = d ++ [(k, v)].
Proof.
  induction d as [|[k' v'] d IH]; intros Hnot; [reflexivity|].
  cbn [dict_set app]. destruct (String.eqb_spec k' k) as [->|_].
  - exfalso. apply Hnot. now left.
  - rewrite IH; [reflexivity|]. intros Hin. apply Hnot. now right.
Qed.

(** X15: with disjoint patterns, the prior dictionary used at
    initialization is the given one, unchanged, when every feature is
    matched by some entry (no catch-all group is made); otherwise, unless
    the joined unmatched names are the empty string, the default prior is
    stored under them, as a last entry when that key is new. *)
Theorem catch_all_group_is_added_only_for_unmatched_features :
  forall self : LinearHeterogenousPriorsEffect,
    (forall c, In c (feature_names self) ->
               ~ matched_twice re_match (exogenous_priors self) c) ->
    exists key,
      features_with_default_priors re_match self = Ok key /\
      ((forall c, In c (feature_names self) ->
                  exists item, In item (exogenous_priors self) /\
                               re_match (fst item) c = true) ->
       key = "" /\
       priors_with_default re_match self = Ok (exogenous_priors self)) /\
      (key <> "" ->
       priors_with_default re_match self
       = Ok (dict_set (exogenous_priors self) key (default_exogenous_prior self))) /\
      (key <> "" -> ~ In key (map fst (exogenous_priors self)) ->
       priors_with_default re_match self
       = Ok (exogenous_priors self ++ [(key, default_exogenous_prior self)])).
Proof.
  intros self Hno.
  destruct (features_with_default_priors_run self Hno)
    as [remaining [Hrun [_ Hin]]].
  exists (String.concat "|" remaining). split; [exact Hrun|].
  assert (Hadd : String.concat "|" remaining <> "" ->
                 priors_with_default re_match self
                 = Ok (dict_set (exogenous_priors self)
                         (String.concat "|" remaining)
                         (default_exogenous_prior self))).
  { intros Hkey. unfold priors_with_default. rewrite Hrun. cbn [Py.bind].
    apply String.eqb_neq in Hkey. now rewrite Hkey. }
  split; [|split].
  - intros Hall.
    assert (Hnil : remaining = []).
    { destruct remaining as [|c rest]; [reflexivity|]. exfalso.
      destruct (proj1 (Hin c) (or_introl eq_refl)) as [HF Hnone].
      destruct (Hall c HF) as [item [Hitem Hm]].
      rewrite (Hnone item Hitem) in Hm. discriminate. }
    subst remaining. split; [reflexivity|].
    unfold priors_with_default. rewrite Hrun. reflexivity.
  - exact Hadd.
  - intros Hkey Hnew. rewrite (Hadd Hkey). now rewrite dict_set_new.
Qed.

(** X16: with no feature names the constructor returns at once and sets
    neither the placement matrix nor the distributions, whatever the
    priors; [get_coefficients] on that effect then fails with
    [AttributeError]. *)
Theorem no_feature_names_leave_the_effect_without_a_matrix :
  forall (exogenous_priors : dict prior) (default_exogenous_prior : prior)
         (effect_mode id : string) (regex : option string) (h : numpyro.handler),
    exists self,
      LinearHeterogenousPriorsEffect__init__ re_match exogenous_priors []
        default_exogenous_prior effect_mode id regex = Ok self /\
      exogenous_permutation_matrix self = None /\
      exogenous_dists self = None /\
      get_coefficients self h = Raise (AttributeError "exogenous_dists").
Proof.
  intros. eexists. repeat split.
Qed.

End DisjointGroups.

Lemma disjoint_patterns_leave_the_unmatched_features_witness :
  let laplace := effects_py.mk_prior "Laplace" [0%R; 1%R] in
  let normal := effects_py.mk_prior "Normal" [0%R; 1%R] in
  let self :=
    effects_py.mk_LinearHeterogenousPriorsEffect
      (effects_py.mk_AbstractEffect "exog" None)
      [("b", laplace)] ["c"; "b"; "a"] normal "additive" None None [] in
  exists remaining,
    effects_py.features_with_default_priors Re.re_match self
    = Ok (String.concat "|" remaining) /\
    NoDup remaining /\
    forall c, In c remaining <->
              In c (effects_py.feature_names self) /\
              forall item, In item (effects_py.exogenous_priors self) ->
                           Re.re_match (fst item) c = false.
Proof.
  intros laplace normal self.
  apply (disjoint_patterns_leave_the_unmatched_features Re.re_match self).
  intros c _ (l1 & x & l2 & y & l3 & Heq & _).
  unfold self in Heq. cbn [effects_py.exogenous_priors] in Heq.
  apply (f_equal (@length _)) in Heq. rewrite length_app in Heq.
  cbn [length] in Heq. rewrite length_app in Heq. cbn [length] in Heq. lia.
Defined.

Lemma catch_all_group_is_added_only_for_unmatched_features_witness :
  let laplace := effects_py.mk_prior "Laplace" [0%R; 1%R] in
  let normal := effects_py.mk_prior "Normal" [0%R; 1%R] in
  let self :=
    effects_py.mk_LinearHeterogenousPriorsEffect
      (effects_py.mk_AbstractEffect "exog" None)
      [("b", laplace)] ["c"; "b"; "a"] normal "additive" None None [] in
  exists key,
    effects_py.features_with_default_priors Re.re_match self = Ok key /\
    (key <> "" -> ~ In key (map fst (effects_py.exogenous_priors self)) ->
     effects_py.priors_with_default Re.re_match self
     = Ok (effects_py.exogenous_priors self
             ++ [(key, effects_py.default_exogenous_prior self)])).
Proof.
  intros laplace normal self.
  destruct (catch_all_group_is_added_only_for_unmatched_features Re.re_match self)
    as (key & Hkey & _ & _ & Hlast).
  - intros c _ (l1 & x & l2 & y & l3 & Heq & _).
    unfold self in Heq. cbn [effects_py.exogenous_priors] in Heq.
    apply (f_equal (@length _)) in Heq. rewrite length_app in Heq.
    cbn [length] in Heq. rewrite length_app in Heq. cbn [length] in Heq. lia.
  - exists key. split; [exact Hkey | exact Hlast].
Defined.

(** ** The shape of the placement matrix and the declared sites *)

Section MatrixShape.
Import numpyro props effects_py.
Variable re_match : string -> string -> bool.

Lemma indicator_row (n r : nat) (idx : list nat) :
  r < n ->
  nth r (indicator_rows n idx) []
  = map (fun i => if Nat.eqb i r then 1%R else 0%R) idx.
Proof.
  intros Hr. unfold indicator_rows.
  rewrite nth_indep
    with (d' := map (fun i => if Nat.eqb i 0 then 1%R else 0%R) idx)
    by (now rewrite length_map, length_seq).
  rewrite (map_nth (fun r => map (fun i => if Nat.eqb i r then 1%R else 0%R) idx)).
  now rewrite seq_nth.
Qed.

Lemma indicator_entry (n r j : nat) (idx : list nat) :
  r < n -> j < length idx ->
  nth j (nth r (indicator_rows n idx) []) 0%R
  = if Nat.eqb (nth j idx 0) r then 1%R else 0%R.
Proof.
  intros Hr Hj. rewrite indicator_row by exact Hr.
  rewrite nth_indep with (d' := if Nat.eqb 0 r then 1%R else 0%R)
    by (now rewrite length_map).
  apply (map_nth (fun i => if Nat.eqb i r then 1%R else 0%R)).
Qed.

Lemma initialization_result (self self' : LinearHeterogenousPriorsEffect)
    (fp : dict prior) :
  NoDup (feature_names self) ->
  feature_names self <> [] ->
  priors_with_default re_match self = Ok fp ->
  set_distributions_and_permutation_matrix re_match self = Ok self' ->
  group_positions re_match self fp <> [] /\
  self' = assembled re_match self (enumerate fp)
            (group_positions re_match self fp).
Proof.
  intros Hnd Hne Hfp Hinit.
  rewrite set_distributions_unfold in Hinit by exact Hne.
  rewrite Hfp in Hinit. cbn [Py.bind] in Hinit.
  now apply assemble_ok.
Qed.

Lemma group_positions_bound (self : LinearHeterogenousPriorsEffect)
    (fp : dict prior) (i : nat) :
  NoDup (feature_names self) ->
  In i (concat (group_positions re_match self fp)) ->
  i < length (feature_names self).
Proof.
  intros Hnd Hin. apply in_concat in Hin. destruct Hin as [g [Hg Hi]].
  unfold group_positions in Hg. apply filter_In in Hg.
  destruct Hg as [Hg _]. apply in_map_iff in Hg.
  destruct Hg as [item [<- _]]. now apply (group_idx_bound re_match self Hnd) in Hi.
Qed.

(** X17: after a successful initialization on distinct feature names,
    the placement matrix has one row per feature and one column per
    matched position of the groups, in declaration order; every column
    holds exactly one 1, the other entries being 0; and there is one
    stored distribution per group that matches a feature. *)
Theorem placement_matrix_columns_hold_exactly_one_1 :
  forall (self self' : LinearHeterogenousPriorsEffect) (fp : dict prior),
    NoDup (feature_names self) ->
    feature_names self <> [] ->
    priors_with_default re_match self = Ok fp ->
    set_distributions_and_permutation_matrix re_match self = Ok self' ->
    let n := length (feature_names self) in
    let width := length (concat (group_positions re_match self fp)) in
    exists P ds,
      exogenous_permutation_matrix self' = Some P /\
      exogenous_dists self' = Some ds /\
      length P = n /\
      (forall row, In row P -> length row = width) /\
      length ds = length (group_positions re_match self fp) /\
      forall j, j < width ->
                exists r, r < n /\
                          nth j (nth r P []) 0%R = 1%R /\
                          forall r', r' < n -> r' <> r ->
                                     nth j (nth r' P []) 0%R = 0%R.
Proof.
  intros self self' fp Hnd Hne Hfp Hinit n width.
  destruct (initialization_result self self' fp Hnd Hne Hfp Hinit)
    as [_ ->].
  eexists _, _. split; [reflexivity|]. split; [reflexivity|].
  split; [apply indicator_rows_length|]. split; [|split].
  - intros row Hrow. unfold indicator_rows in Hrow.
    apply in_map_iff in Hrow. destruct Hrow as [r [<- _]].
    now rewrite length_map.
  - rewrite length_map.
    rewrite <- (enumerate_positions re_match self fp 0).
    now rewrite length_map.
  - intros j Hj.
    set (idx := concat (group_positions re_match self fp)) in *.
    assert (Hr : nth j idx 0 < n).
    { apply (group_positions_bound self fp); [exact Hnd|].
      now apply nth_In. }
    exists (nth j idx 0). split; [exact Hr|]. split.
    + rewrite indicator_entry by assumption. now rewrite Nat.eqb_refl.
    + intros r' Hr' Hneq. rewrite indicator_entry by assumption.
      destruct (Nat.eqb_spec (nth j idx 0) r') as [Heq|_];
        [now subst | reflexivity].
Qed.




End MatrixShape.

Lemma placement_matrix_columns_hold_exactly_one_1_witness :
  let normal := effects_py.mk_prior "Normal" [0%R; 1%R] in
  let laplace := effects_py.mk_prior "Laplace" [0%R; 1%R] in
  let self :=
    effects_py.mk_LinearHeterogenousPriorsEffect
      (effects_py.mk_AbstractEffect "exog" None)
      [("b", laplace)] ["a"; "b"; "c"] normal "additive" None None [] in
  let fp := [("b", laplace); ("a|c", normal)] in
  exists self',
    effects_py.set_distributions_and_permutation_matrix Re.re_match self
    = Ok self' /\
    exists P ds,
      effects_py.exogenous_permutation_matrix self' = Some P /\
      effects_py.exogenous_dists self' = Some ds /\
      length P = 3 /\
      (forall row, In row P ->
                   length row
                   = length (concat (props.group_positions Re.re_match self fp))) /\
      length ds = length (props.group_positions Re.re_match self fp) /\
      forall j, j < length (concat (props.group_positions Re.re_match self fp)) ->
                exists r, r < 3 /\
                          nth j (nth r P []) 0%R = 1%R /\
                          forall r', r' < 3 -> r' <> r ->
                                     nth j (nth r' P []) 0%R = 0%R.
Proof.
  intros normal laplace self fp.
  eexists. split; [reflexivity|].
  apply (placement_matrix_columns_hold_exactly_one_1 Re.re_match self _ fp).
  - repeat constructor; simpl; intuition discriminate.
  - discriminate.
  - reflexivity.
  - reflexivity.
Defined.


(** ** The catch-all group on literal names *)

Section CatchAll.
Import props effects_py.

Lemma ordinary_not_bar (c : ascii) :
  Re.ordinary c = true -> Ascii.eqb c "|"%char = false.
Proof.
  unfold Re.ordinary, Re.metacharacters. intros H.
  apply Bool.negb_true_iff in H.
  destruct (Ascii.eqb c "|"%char) eqn:E; [|reflexivity].
  cbn [existsb] in H. rewrite E in H.
  rewrite !Bool.orb_true_r in H. discriminate.
Qed.

Lemma split_bar_literal_bar (s t : string) :
  Re.literal s = true ->
  Re.split_bar (s ++ String "|"%char t) = s :: Re.split_bar t.
Proof.
  induction s as [|c s IH]; intros Hs; [reflexivity|].
  cbn [Re.literal] in Hs. apply Bool.andb_true_iff in Hs.
  destruct Hs as [Hc Hs]. cbn [String.append Re.split_bar].
  rewrite (ordinary_not_bar c Hc), (IH Hs). reflexivity.
Qed.

Lemma split_bar_literal (s : string) :
  Re.literal s = true -> Re.split_bar s = [s].
Proof.
  induction s as [|c s IH]; intros Hs; [reflexivity|].
  cbn [Re.literal] in Hs. apply Bool.andb_true_iff in Hs.
  destruct Hs as [Hc Hs]. cbn [Re.split_bar].
  rewrite (ordinary_not_bar c Hc), (IH Hs). reflexivity.
Qed.

(** Splitting at the bars undoes the joining of literal names. *)
Lemma split_bar_concat (names : list string) :
  names <> [] ->
  Forall (fun s => Re.literal s = true) names ->
  Re.split_bar (String.concat "|" names) = names.
Proof.
  induction names as [|x names IH]; intros Hne Hall; [contradiction|].
  inversion Hall as [|? ? Hx Hrest]; subst.
  destruct names as [|y names].
  - cbn [String.concat]. now apply split_bar_literal.
  - change (String.concat "|" (x :: y :: names))
      with (x ++ String "|"%char (String.concat "|" (y :: names)))%string.
    rewrite split_bar_literal_bar by exact Hx.
    rewrite IH; [reflexivity | discriminate | exact Hrest].
Qed.

Lemma prefix_reflexive (s : string) : String.prefix s s = true.
Proof.
  induction s as [|c s IH]; [reflexivity|]. cbn [String.prefix].
  destruct (ascii_dec c c) as [_|Hne]; [exact IH | contradiction].
Qed.

(** X19: on feature names free of pattern characters, with disjoint
    patterns and at least one unmatched feature, the catch-all pattern
    (the unmatched names joined by bars, matched from the start of each
    name) selects every unmatched feature, and selects a feature exactly
    when some unmatched feature name is a prefix of it: it also takes
    every matched feature whose name starts with an unmatched name. *)
Theorem catch_all_group_takes_the_names_with_an_unmatched_prefix :
  forall self : LinearHeterogenousPriorsEffect,
    Forall (fun s => Re.literal s = true) (feature_names self) ->
    Forall (fun item => Re.alternation_of_literals (fst item) = true)
      (exogenous_priors self) ->
    (forall c, In c (feature_names self) ->
               ~ matched_twice Re.re_match (exogenous_priors self) c) ->
    (exists c, In c (feature_names self) /\
               forall item, In item (exogenous_priors self) ->
                            Re.re_match (fst item) c = false) ->
    exists remaining,
      features_with_default_priors Re.re_match self
      = Ok (String.concat "|" remaining) /\
      (forall c, In c remaining <->
                 In c (feature_names self) /\
                 forall item, In item (exogenous_priors self) ->
                              Re.re_match (fst item) c = false) /\
      (forall c, In c remaining ->
                 In c (group_columns Re.re_match self (String.concat "|" remaining))) /\
      (forall c, In c (group_columns Re.re_match self (String.concat "|" remaining)) <->
                 In c (feature_names self) /\
                 exists r, In r remaining /\ String.prefix r c = true).
Proof.
  intros self Hlit _ Hno [c0 [Hc0 Hnone0]].
  destruct (features_with_default_priors_run Re.re_match self Hno)
    as [remaining [Hrun [_ Hin]]].
  exists remaining. split; [exact Hrun|]. split; [exact Hin|].
  assert (Hne : remaining <> []).
  { intros ->. apply (proj2 (Hin c0)). now split. }
  assert (Hrem_lit : Forall (fun s => Re.literal s = true) remaining).
  { apply Forall_forall. intros r Hr. rewrite Forall_forall in Hlit.
    apply Hlit. now apply Hin. }
  assert (Hgroup : forall c,
             In c (group_columns Re.re_match self (String.concat "|" remaining)) <->
             In c (feature_names self) /\
             exists r, In r remaining /\ String.prefix r c = true).
  { intros c. unfold group_columns, Re.re_match.
    rewrite filter_In, split_bar_concat by assumption.
    now rewrite existsb_exists. }
  split; [|exact Hgroup].
  intros c Hc. apply Hgroup. split; [now apply Hin|].
  exists c. split; [exact Hc | apply prefix_reflexive].
Qed.

End CatchAll.

Lemma catch_all_group_takes_the_names_with_an_unmatched_prefix_witness :
  let normal := effects_py.mk_prior "Normal" [0%R; 1%R] in
  let laplace := effects_py.mk_prior "Laplace" [0%R; 1%R] in
  let self :=
    effects_py.mk_LinearHeterogenousPriorsEffect
      (effects_py.mk_AbstractEffect "exog" None)
      [("price_lag", laplace)] ["price"; "price_lag"; "promo"] normal "additive"
      None None [] in
  exists remaining,
    effects_py.features_with_default_priors Re.re_match self
    = Ok (String.concat "|" remaining) /\
    In "price" remaining /\
    In "price_lag"
      (effects_py.group_columns Re.re_match self (String.concat "|" remaining)).
Proof.
  intros normal laplace self.
  destruct (catch_all_group_takes_the_names_with_an_unmatched_prefix self)
    as (remaining & Hrun & Hin & _ & Hgroup).
  - repeat constructor.
  - repeat constructor.
  - intros c _ (l1 & x & l2 & y & l3 & Heq & _).
    unfold self in Heq. cbn [effects_py.exogenous_priors] in Heq.
    apply (f_equal (@length _)) in Heq. rewrite length_app in Heq.
    cbn [length] in Heq. rewrite length_app in Heq. cbn [length] in Heq. lia.
  - exists "price". split; [simpl; auto|].
    intros item [<-|[]]. reflexivity.
  - assert (Hprice : In "price" remaining).
    { apply Hin. split; [simpl; auto|]. intros item [<-|[]]. reflexivity. }
    exists remaining. split; [exact Hrun|]. split; [exact Hprice|].
    apply Hgroup. split; [simpl; auto|].
    exists "price". split; [exact Hprice | reflexivity].
Defined.

(** ** The effect of the heterogeneous-prior model on data *)

Section HeterogeneousEffect.
Import numpyro effects_py.

Lemma concat_column (v : list R) : concat (column v) = v.
Proof.
  unfold column. induction v as [|x v IH]; cbn [map concat app];
    [reflexivity | now rewrite IH].
Qed.

(** X20: [compute_effect] of the heterogeneous-prior effect multiplies
    the rows of the data with the coefficient column that
    [get_coefficients] returns: when that column has one coefficient per
    trailing entry of the data, the effect keeps the leading axes of the
    data with a last axis of extent 1; the mode [multiplicative]
    multiplies it by the trend and every other mode returns it as it
    is. *)
Theorem heterogeneous_effect_is_data_times_coefficients :
  forall (self : LinearHeterogenousPriorsEffect) (trend data : ndarray)
         (h h' : handler) (lead : list nat) (n : nat) (coefs : list R),
    let product :=
      mk_ndarray (match lead with [] => [1] | _ :: _ => lead ++ [1] end)
        (map (fun row => dot row coefs) (chunks (size_of lead) n (flat data))) in
    shape data = lead ++ [n] ->
    get_coefficients self h = Ok (column coefs, h') ->
    length coefs = n ->
    (lin_effect_mode self <> "multiplicative" ->
     LinearHeterogenousPriorsEffect_compute_effect self trend data h
     = Ok (product, h')) /\
    (lin_effect_mode self = "multiplicative" ->
     LinearHeterogenousPriorsEffect_compute_effect self trend data h
     = match multiply trend product with
       | Ok effect => Ok (effect, h')
       | Raise e => Raise e
       end).
Proof.
  intros self trend data h h' lead n coefs product Hshape Hget Hlen.
  assert (Hmm : matrix_multiplication data (of_rows (column coefs)) = Ok product).
  { unfold matrix_multiplication.
    rewrite (matmul_column_run data _ lead n Hshape)
      by (cbn [flat reshape_column of_rows]; now rewrite concat_column).
    cbn [flat reshape_column of_rows]. now rewrite concat_column. }
  unfold LinearHeterogenousPriorsEffect_compute_effect, mbind.
  rewrite Hget. split.
  - intros Hmode. apply String.eqb_neq in Hmode. rewrite Hmode.
    unfold lift, additive_effect. now rewrite Hmm.
  - intros Hmode. rewrite Hmode, String.eqb_refl.
    unfold lift, multiplicative_effect. now rewrite Hmm.
Qed.

End HeterogeneousEffect.

Lemma heterogeneous_effect_is_data_times_coefficients_witness :
  let normal := effects_py.mk_prior "Normal" [2%R; 1%R] in
  let self :=
    effects_py.mk_LinearHeterogenousPriorsEffect
      (effects_py.mk_AbstractEffect "exog" None)
      [] ["a"; "b"] normal "additive"
      (Some [[1%R; 0%R]; [0%R; 1%R]])
      (Some [("exogenous_coefficients_0",
              numpyro.mk_dist "Normal" [ones_times 2 2; ones_times 2 1])])
      [] in
  let data := mk_ndarray [1; 2] [3%R; 4%R] in
  let h := numpyro.mk_handler (fun _ _ => array1 [5%R; 6%R]) [] in
  exists coefs h',
    effects_py.get_coefficients self h = Ok (column coefs, h') /\
    effects_py.LinearHeterogenousPriorsEffect_compute_effect self
      (array1 [1%R]) data h
    = Ok (mk_ndarray [1; 1]
            (map (fun row => dot row coefs) (chunks 1 2 [3%R; 4%R])), h').
Proof.
  intros normal self data h.
  eexists [_; _], _.
  assert (Hget : effects_py.get_coefficients self h
                 = Ok (column [_; _], _)) by reflexivity.
  split; [exact Hget|].
  destruct (heterogeneous_effect_is_data_times_coefficients self (array1 [1%R])
              data h _ [1] 2 _ eq_refl Hget eq_refl) as [Hadd _].
  apply Hadd. discriminate.
Defined.
